(** * tinycc: locating, invoking and packaging the bundled tcc compiler

    A shallow embedding of [tinycc/__init__.py] (functions [compile],
    [data_files] with its helper [_find_files], and [find_tcc_path]) together
    with the properties stated about them.

    Python [str] values are Rocq [string]s, dictionaries are [gmap]s keyed by
    strings, exceptions are an explicit error type, and everything the module
    asks of the operating system (environment, file existence, globbing,
    directory walking, running a shell command) is read from an explicit
    [World] value. *)

From Stdlib Require Import ZArith Ascii String.
From stdpp Require Import base option list strings gmap.

Local Open Scope Z_scope.

(** ** Python strings *)

Module Str.

(** [s.startswith(c)] and [s.endswith(c)] for a one-character [c]. *)
Definition startswith (c : ascii) (s : string) : bool :=
  match s with
  | EmptyString => false
  | String a _ => Ascii.eqb a c
  end.

Fixpoint endswith (c : ascii) (s : string) : bool :=
  match s with
  | EmptyString => false
  | String a EmptyString => Ascii.eqb a c
  | String _ s' => endswith c s'
  end.

(** [s.rfind(c)]: the highest index at which [c] occurs, [-1] when absent. *)
Fixpoint rfind (c : ascii) (s : string) : Z :=
  match s with
  | EmptyString => -1
  | String a s' =>
      let i := rfind c s' in
      if 0 <=? i then i + 1
      else if Ascii.eqb a c then 0 else -1
  end.

(** [s[:n]] and [s[n:]] for a non-negative [n]; slices clamp at the end. *)
Fixpoint take (n : nat) (s : string) : string :=
  match n, s with
  | S n', String a s' => String a (take n' s')
  | _, _ => EmptyString
  end.

Fixpoint drop (n : nat) (s : string) : string :=
  match n, s with
  | S n', String _ s' => drop n' s'
  | _, _ => s
  end.

(** [s[i:j]] for [0 <= i]. *)
Definition slice (i j : nat) (s : string) : string := take (j - i) (drop i s).

(** Every character of [s] is [c] (so [s == c * len(s)]). *)
Fixpoint all_char (c : ascii) (s : string) : bool :=
  match s with
  | EmptyString => true
  | String a s' => Ascii.eqb a c && all_char c s'
  end.

(** Some character of [s] differs from [c]. *)
Fixpoint has_other (c : ascii) (s : string) : bool :=
  match s with
  | EmptyString => false
  | String a s' => negb (Ascii.eqb a c) || has_other c s'
  end.

(** [c] occurs in [s]. *)
Fixpoint mem (c : ascii) (s : string) : bool :=
  match s with
  | EmptyString => false
  | String a s' => Ascii.eqb a c || mem c s'
  end.

(** [s.rstrip(c)]. *)
Fixpoint rstrip (c : ascii) (s : string) : string :=
  match s with
  | EmptyString => EmptyString
  | String a s' =>
      match rstrip c s' with
      | EmptyString => if Ascii.eqb a c then EmptyString else String a EmptyString
      | r => String a r
      end
  end.

(** [s.split(c)]: the fields between occurrences of [c]; never empty. *)
Fixpoint split (c : ascii) (s : string) : list string :=
  match s with
  | EmptyString => [EmptyString]
  | String a s' =>
      if Ascii.eqb a c then EmptyString :: split c s'
      else match split c s' with
           | f :: fs => String a f :: fs
           | [] => [String a EmptyString]
           end
  end.

(** Truthiness of a string: [if s] holds for the non-empty ones. *)
Definition nonempty (s : string) : bool :=
  match s with EmptyString => false | _ => true end.

(** [needle in s]. *)
Fixpoint isin (needle s : string) : bool :=
  String.prefix needle s
  || match s with
     | EmptyString => false
     | String _ s' => isin needle s'
     end.

End Str.

(** ** Exceptions and results *)

Inductive exn : Type :=
| RuntimeError (msg : string)
| ImportError (msg : string)
| TypeError
| ValueError
| KeyError (key : string).

Inductive result (A : Type) : Type :=
| Return (a : A)
| Raise (e : exn).
Arguments Return {A} a.
Arguments Raise {A} e.

(** An exception raised by a call propagates through the caller; sequencing
    is written [x ← r; k]. *)
#[export] Instance result_bind : MBind result := fun A B k r =>
  match r with
  | Return a => k a
  | Raise e => Raise e
  end.

Definition raises {A : Type} (r : result A) : Prop :=
  match r with Raise _ => True | Return _ => False end.

(** Calling a Python function that declares exactly one positional parameter:
    any other number of arguments raises [TypeError] before the body runs. *)
Definition call1 {A B : Type} (f : A -> B) (args : list A) : result B :=
  match args with
  | [a] => Return (f a)
  | _ => Raise TypeError
  end.

(** ** The [os.path] interface

    [os.path] is whichever path module the platform selects.  The functions
    below are written against this interface; [posixpath] is the instance
    modelled from CPython. *)

Class OsPath : Type := {
  sep : ascii;
  altsep : option ascii;
  (** [join(a, *ps)] *)
  join : string -> list string -> string;
  dirname : string -> string;
}.

Definition extsep : ascii := ".".

(** [genericpath._splitext], shared by every flavour of [os.path]: the
    extension starts at the last dot of the last path component, unless that
    component consists of leading dots only up to there. *)
Definition _splitext (sep : ascii) (altsep : option ascii) (extsep : ascii)
    (p : string) : string * string :=
  let sepIndex := Str.rfind sep p in
  let sepIndex :=
    match altsep with
    | Some a => Z.max sepIndex (Str.rfind a p)
    | None => sepIndex
    end in
  let dotIndex := Str.rfind extsep p in
  if (sepIndex <? dotIndex)
     && Str.has_other extsep
          (Str.slice (Z.to_nat (sepIndex + 1)) (Z.to_nat dotIndex) p)
  then (Str.take (Z.to_nat dotIndex) p, Str.drop (Z.to_nat dotIndex) p)
  else (p, "").

Definition splitext `{OsPath} (p : string) : string * string :=
  _splitext sep altsep extsep p.

Module posix.

Definition sep : ascii := "/".

(** One round of the loop of [posixpath.join]. *)
Definition join_step (path b : string) : string :=
  if Str.startswith sep b then b
  else if negb (Str.nonempty path) || Str.endswith sep path then path +:+ b
  else path +:+ String sep b.

Definition join (a : string) (ps : list string) : string :=
  fold_left join_step ps a.

Definition dirname (p : string) : string :=
  let i := Str.rfind sep p + 1 in
  let head := Str.take (Z.to_nat i) p in
  if Str.nonempty head && negb (Str.all_char sep head)
  then Str.rstrip sep head
  else head.

Definition isabs (p : string) : bool := Str.startswith sep p.

End posix.

#[export] Instance posixpath : OsPath := {|
  sep := posix.sep;
  altsep := None;
  join := posix.join;
  dirname := posix.dirname;
|}.

(** ** The [%] operator with a mapping on the right

    [template % mapping], scanned from left to right as Python does.  The
    conversion specifications [%(key)s] and [%%] are formatted; Python tracks
    nested parentheses inside a key and looks the key up as soon as it is
    closed.  A specification that stops at the end of the template, or whose
    conversion character is none that Python knows, raises [ValueError]; a
    key that the mapping lacks raises [KeyError].  Every other specification
    (flags, width, precision, a conversion other than [s]) is [Unmodelled]:
    Python then formats or raises in a way that is not described here. *)

Module Fmt.

Inductive state : Type :=
| Text
| Percent
| Key (depth : nat) (key : string)
| Conv (v : string).

Inductive outcome : Type :=
| Formatted (s : string)
| Failed (e : exn)
| Unmodelled.

Definition snoc (s : string) (c : ascii) : string := s +:+ String c EmptyString.

(** The characters that may follow [%] in a specification Python accepts:
    flags, width and precision, length modifiers and conversion types. *)
Definition specification_char (c : ascii) : bool :=
  Str.mem c "-+ #0123456789*.hlLdiouxXeEfFgGcrsa%".

Fixpoint go (m : gmap string string) (st : state) (out : string)
    (s : string) : outcome :=
  match s with
  | EmptyString =>
      match st with
      | Text => Formatted out
      | _ => Failed ValueError
      end
  | String c s' =>
      match st with
      | Text =>
          if Ascii.eqb c "%" then go m Percent out s'
          else go m Text (snoc out c) s'
      | Percent =>
          if Ascii.eqb c "%" then go m Text (snoc out "%") s'
          else if Ascii.eqb c "(" then go m (Key 0 "") out s'
          else if specification_char c then Unmodelled
          else Failed ValueError
      | Key depth key =>
          if Ascii.eqb c ")" then
            match depth with
            | O =>
                match m !! key with
                | Some v => go m (Conv v) out s'
                | None => Failed (KeyError key)
                end
            | S d => go m (Key d (snoc key c)) out s'
            end
          else if Ascii.eqb c "(" then go m (Key (S depth) (snoc key c)) out s'
          else go m (Key depth (snoc key c)) out s'
      | Conv v =>
          if Ascii.eqb c "s" then go m Text (out +:+ v) s'
          else if specification_char c then Unmodelled
          else Failed ValueError
      end
  end.

Definition run (template : string) (m : gmap string string) : outcome :=
  go m Text "" template.

(** The formatted string, when there is one. *)
Definition format (template : string) (m : gmap string string) : option string :=
  match run template m with
  | Formatted s => Some s
  | _ => None
  end.

End Fmt.

(** ** The process environment and the file system *)

(** A directory as [os.scandir] shows it to [os.walk]: the entries that are
    directories, by name, and the other entries.  [Unlisted] is a directory
    that a walk yields nothing for: a symbolic link (links are not followed)
    or a directory that cannot be read (listing errors are ignored). *)
#[warning="-register-all"]
Inductive dtree : Type :=
| Dir (dirs : list (string * dtree)) (nondirs : list string)
| Unlisted.

Record World : Type := {
  (** [os.environ] *)
  environ : gmap string string;
  (** [__file__] of the [tinycc] package *)
  __file__ : string;
  sys_executable : string;
  realpath : string -> string;
  (** [os.path.exists] *)
  exists_ : string -> bool;
  (** [glob.glob] *)
  glob : string -> list string;
  (** The directory tree below a path; [None] when there is no such
      directory. *)
  scandir : string -> option dtree;
  (** [repr] of a [str]. *)
  repr : string -> string;
}.

(** [os.system(command)]: the exit status and the world the command leaves. *)
Definition Shell : Type := string -> World -> Z * World.

(** [os.walk(top)], top-down, not following links, ignoring listing errors:
    the triples [(path, dirs, nondirs)] in the order they are yielded. *)
Fixpoint walk_tree `{OsPath} (top : string) (t : dtree)
    : list (string * list string * list string) :=
  match t with
  | Dir dirs nondirs =>
      (top, map fst dirs, nondirs)
      :: flat_map (fun e => walk_tree (join top [fst e]) (snd e)) dirs
  | Unlisted => []
  end.

Definition walk `{OsPath} (w : World) (top : string)
    : list (string * list string * list string) :=
  match scandir w top with
  | Some t => walk_tree top t
  | None => []
  end.

(** ** tinycc/__init__.py *)

Definition EXE : string := "tcc.exe".
Definition KEY : string := "TCC_ROOT".
Definition dquote : string := String "034"%char EmptyString.

Definition find_tcc_path `{OsPath} (w : World) : result string :=
  (* Look for the TCC_ROOT environment variable *)
  match environ w !! KEY with
  | Some root =>
      let path := join root [EXE] in
      if negb (exists_ w path) then
        Raise (RuntimeError (KEY +:+ " " +:+ repr w root
                             +:+ " does not contain " +:+ EXE))
      else Return path
  | None =>
      (* Check in the tinycc package *)
      let path := join (dirname (realpath w (__file__ w))) [EXE] in
      if exists_ w path then Return path
      else
        (* Check next to exe/zip file: dirname receives three arguments *)
        d ← call1 dirname [sys_executable w; "tinycc-data"; EXE];
        let path := join (realpath w d) [] in
        if exists_ w path then Return path
        else Raise (ImportError "Could not locate tcc.exe")
  end.

(** The module constant [TCC = '"%s"' % find_tcc_path()], computed when the
    module is imported; the import fails with the exception of
    [find_tcc_path]. *)
Definition TCC `{OsPath} (w : World) : result string :=
  path ← find_tcc_path w;
  Return (dquote +:+ path +:+ dquote).

(** [compile(source, target=None)], with the module constant [TCC] passed in.
    An exception of [%] at line 73 is raised before any command is run.  The
    outer [option] is [None] exactly when the command template falls outside
    the modelled fragment of [%]. *)
Definition compile `{OsPath} (TCC : string) (system : Shell) (w : World)
    (source : string) (target : option string)
    : option (result string * World) :=
  let target :=
    match target with
    | None => fst (splitext source) +:+ ".dll"
    | Some t => t
    end in
  let COMPILE := TCC +:+ " -shared -rdynamic -Wall %(source)s -o $(target)s" in
  (* command = COMPILE % {"source": source, "target": target} *)
  match Fmt.run COMPILE {[ "source" := source; "target" := target ]} with
  | Fmt.Failed e => Some (Raise e, w)
  | Fmt.Unmodelled => None
  | Fmt.Formatted command =>
      let (status, w') := system command w in
      if negb (status =? 0) || negb (exists_ w' target) then
        Some (Raise (RuntimeError ("compile failed.  File is in "
                                   +:+ repr w' source)), w')
      else Some (Return target, w')
  end.

Definition _find_files `{OsPath} (w : World) (ROOT path patterns : string)
    : string * list string :=
  let target :=
    if Str.nonempty path then join "tinycc-data" [path] else "tinycc-data" in
  let files :=
    fold_left (fun files pattern => files ++ glob w (join ROOT [path; pattern]))
              (Str.split "," patterns) [] in
  (target, files).

Definition data_files `{OsPath} (w : World)
    : result (list (string * list string)) :=
  exe ← find_tcc_path w;
  let ROOT := dirname exe in
  let result := [] in
  let result := result ++ [_find_files w ROOT "include" "*.h"] in
  let result :=
    fold_left
      (fun result '(path, dirs, _) =>
         let relative_path := Str.drop (String.length ROOT + 1) path in
         fold_left
           (fun result d =>
              result ++ [_find_files w ROOT (join relative_path [d]) "*.h"])
           dirs result)
      (walk w (join ROOT ["include"])) result in
  let result := result ++ [_find_files w ROOT "lib" "*"] in
  let result := result ++ [_find_files w ROOT "libtcc" "*"] in
  let result := result ++ [_find_files w ROOT "" "*.exe,*.dll"] in
  Return result.

(** ** Names for what the functions compute on the way *)

(** The exception of line 131. *)
Definition override_error (w : World) (root : string) : exn :=
  RuntimeError (KEY +:+ " " +:+ repr w root +:+ " does not contain " +:+ EXE).

(** The package-local candidate of line 136. *)
Definition package_candidate `{OsPath} (w : World) : string :=
  join (dirname (realpath w (__file__ w))) [EXE].

(** The value of [target] after line 71 of [compile]. *)
Definition target_used `{OsPath} (source : string) (target : option string)
    : string :=
  match target with
  | None => fst (splitext source) +:+ ".dll"
  | Some t => t
  end.

(** What [splitext] may return as the extension: nothing, or a dot followed
    by characters that are neither dots nor separators. *)
Definition is_extension `{OsPath} (ext : string) : Prop :=
  ext = ""
  \/ exists e,
       ext = String extsep e
       /\ Str.mem extsep e = false
       /\ Str.mem sep e = false
       /\ forall a, altsep = Some a -> Str.mem a e = false.

(** The value of [command] at line 73 of [compile], the string handed to
    [os.system]. *)
Definition command_line (TCC source target : string) : option string :=
  Fmt.format (TCC +:+ " -shared -rdynamic -Wall %(source)s -o $(target)s")
             {[ "source" := source; "target" := target ]}.

(** The value of [target] in [_find_files]. *)
Definition destination `{OsPath} (path : string) : string :=
  if Str.nonempty path then join "tinycc-data" [path] else "tinycc-data".

(** The [path] arguments that the loop over [os.walk] passes to
    [_find_files], in order. *)
Definition walked_dirs `{OsPath} (w : World) (ROOT : string) : list string :=
  flat_map
    (fun '(path, dirs, _) =>
       map (fun d => join (Str.drop (String.length ROOT + 1) path) [d]) dirs)
    (walk w (join ROOT ["include"])).

(** Every [path] argument that [data_files] passes to [_find_files]. *)
Definition searched_dirs `{OsPath} (w : World) (ROOT : string) : list string :=
  "include" :: walked_dirs w ROOT ++ ["lib"; "libtcc"; ""].

(** *** Well-formed directory listings

    A name that a directory listing can hold is not empty and has no
    separator in it. *)
Definition valid_name (d : string) : bool :=
  Str.nonempty d && negb (Str.mem posix.sep d).

Fixpoint tree_ok (t : dtree) : bool :=
  match t with
  | Dir dirs _ => forallb (fun e => valid_name (fst e) && tree_ok (snd e)) dirs
  | Unlisted => true
  end.

Definition names_valid (w : World) : Prop :=
  forall top t, scandir w top = Some t -> tree_ok t = true.

(** A path to which [posixpath.join] appends with a separator: it is not
    empty and does not end in one. *)
Definition open_ended (p : string) : Prop :=
  Str.nonempty p = true /\ Str.endswith posix.sep p = false.

(** Induction over a directory tree, with the hypothesis for every
    sub-directory. *)
Fixpoint dtree_nested_ind (P : dtree -> Prop)
    (HDir : forall dirs nondirs,
        Forall (fun e => P (snd e)) dirs -> P (Dir dirs nondirs))
    (HUnlisted : P Unlisted) (t : dtree) : P t :=
  match t with
  | Dir dirs nondirs =>
      HDir dirs nondirs
        ((fix all (l : list (string * dtree)) : Forall (fun e => P (snd e)) l :=
            match l with
            | [] => List.Forall_nil _
            | e :: l' =>
                List.Forall_cons _ e l' (dtree_nested_ind P HDir HUnlisted (snd e))
                                 (all l')
            end) dirs)
  | Unlisted => HUnlisted
  end.

(** ** The properties as the specification words them *)

(** A template part with no conversion specification in it. *)
Definition percent_free (s : string) : bool := negb (Str.mem "%" s).

(** The command line of the fixed shape: quoted executable, fixed flags,
    source path, [-o], output path. *)
Definition stated_command (TCC source target : string) : string :=
  TCC +:+ " -shared -rdynamic -Wall " +:+ source +:+ " -o " +:+ target.

(** Failure as the specification words it: a command is spawned, and
    [compile] raises exactly when that command exits with a status other
    than zero or leaves no target behind; otherwise it returns the target. *)
Definition fails_iff_command_fails `{OsPath} (TCC : string) (system : Shell)
    (w : World) (source : string) (target : option string) : Prop :=
  exists command status w' r,
    system command w = (status, w')
    /\ compile TCC system w source target = Some (r, w')
    /\ (raises r <->
        status <> 0 \/ exists_ w' (target_used source target) = false)
    /\ (~ raises r -> r = Return (target_used source target)).

(** The candidate locations in the order the specification gives them:
    override directory, package directory, [tinycc-data] next to the running
    program. *)
Definition candidates `{OsPath} (w : World) : list string :=
  match environ w !! KEY with
  | Some root => [join root [EXE]]
  | None => []
  end
  ++ [ package_candidate w;
       join (realpath w (dirname (sys_executable w))) ["tinycc-data"; EXE] ].

(** Resolution as the specification words it: the first candidate that
    contains the executable is returned. *)
Definition first_candidate `{OsPath} (w : World) : result string :=
  match List.find (exists_ w) (candidates w) with
  | Some path => Return path
  | None => Raise (ImportError "Could not locate tcc.exe")
  end.

(** No directory that is searched and does not exist has an entry with an
    empty list of files in the manifest. *)
Definition no_empty_entry_for_absent_dir `{OsPath} (w : World) : Prop :=
  forall exe manifest path,
    find_tcc_path w = Return exe ->
    data_files w = Return manifest ->
    path ∈ searched_dirs w (dirname exe) ->
    exists_ w (join (dirname exe) [path]) = false ->
    (destination path, []) ∉ manifest.

(** A destination is [tinycc-data] itself or [tinycc-data] joined with a
    non-empty relative path, which puts it below [tinycc-data]. *)
Definition under_data_dir (dest : string) : Prop :=
  dest = "tinycc-data"
  \/ exists rel,
       Str.nonempty rel = true /\ posix.isabs rel = false
       /\ dest = posix.join "tinycc-data" [rel]
       /\ dest = "tinycc-data/" +:+ rel.

(** ** A concrete installation

    [/opt/tcc] holds [tcc.exe], an [include] tree with two sub-directories and
    a [lib] directory; there is no [libtcc] directory.  [TCC_ROOT] points at
    [/opt/tcc]. *)

Module Demo.

Definition files : list string :=
  [ "/opt/tcc"; "/opt/tcc/tcc.exe";
    "/opt/tcc/include"; "/opt/tcc/include/stdio.h";
    "/opt/tcc/include/sys"; "/opt/tcc/include/sys/types.h";
    "/opt/tcc/include/winapi"; "/opt/tcc/include/winapi/windows.h";
    "/opt/tcc/lib"; "/opt/tcc/lib/libtcc1.a";
    "/usr/bin/python"; "/site/tinycc/__init__.py" ].

Definition include_tree : dtree :=
  Dir [ ("sys", Dir [] ["types.h"]); ("winapi", Dir [] ["windows.h"]) ]
      ["stdio.h"].

Definition matches (pattern : string) : list string :=
  if String.eqb pattern "/opt/tcc/include/*.h" then
    ["/opt/tcc/include/stdio.h"]
  else if String.eqb pattern "/opt/tcc/include/sys/*.h" then
    ["/opt/tcc/include/sys/types.h"]
  else if String.eqb pattern "/opt/tcc/include/winapi/*.h" then
    ["/opt/tcc/include/winapi/windows.h"]
  else if String.eqb pattern "/opt/tcc/lib/*" then ["/opt/tcc/lib/libtcc1.a"]
  else if String.eqb pattern "/opt/tcc/*.exe" then ["/opt/tcc/tcc.exe"]
  else [].

Definition listing (top : string) : option dtree :=
  if String.eqb top "/opt/tcc/include" then Some include_tree else None.

Definition world (env : gmap string string) (present : list string) : World := {|
  environ := env;
  __file__ := "/site/tinycc/__init__.py";
  sys_executable := "/usr/bin/python";
  realpath := fun p => p;
  exists_ := fun p => bool_decide (p ∈ present);
  glob := matches;
  scandir := listing;
  repr := fun s => "'" +:+ s +:+ "'";
|}.

Definition package_exe : string := "/site/tinycc/tcc.exe".

(** [TCC_ROOT=/opt/tcc] *)
Definition installed : World := world {[ KEY := "/opt/tcc" ]} files.

(** [TCC_ROOT=/opt/tcc], and the package directory holds a [tcc.exe] too. *)
Definition installed_twice : World :=
  world {[ KEY := "/opt/tcc" ]} (package_exe :: files).

(** [TCC_ROOT=/nowhere] names a directory without [tcc.exe], while the
    package directory holds one. *)
Definition misconfigured : World :=
  world {[ KEY := "/nowhere" ]} (package_exe :: files).

(** No [TCC_ROOT]; the package directory holds [tcc.exe]. *)
Definition packaged : World := world ∅ (package_exe :: files).

(** No [TCC_ROOT], and no [tcc.exe] in the package directory nor in
    [tinycc-data] next to the interpreter. *)
Definition bare : World := world ∅ files.

(** The quoted path that the module constant [TCC] holds in [installed]. *)
Definition tcc : string := dquote +:+ "/opt/tcc/tcc.exe" +:+ dquote.

(** The quoted path of a [tcc.exe] installed below a directory named
    [100%]. *)
Definition tcc_percent : string := dquote +:+ "/opt/100%/tcc.exe" +:+ dquote.

(** [installed], with [hello.dll] and [out/hello.so] left by an earlier
    build. *)
Definition built : World :=
  world {[ KEY := "/opt/tcc" ]} ("hello.dll" :: "out/hello.so" :: files).

(** What [data_files] returns in [installed]. *)
Definition manifest : list (string * list string) :=
  [ ("tinycc-data/include", ["/opt/tcc/include/stdio.h"]);
    ("tinycc-data/include/sys", ["/opt/tcc/include/sys/types.h"]);
    ("tinycc-data/include/winapi", ["/opt/tcc/include/winapi/windows.h"]);
    ("tinycc-data/lib", ["/opt/tcc/lib/libtcc1.a"]);
    ("tinycc-data/libtcc", []);
    ("tinycc-data", ["/opt/tcc/tcc.exe"]) ].

(** A shell in which every command exits with status 0, respectively 1, and
    changes nothing. *)
Definition sh_true : Shell := fun _ w => (0, w).
Definition sh_false : Shell := fun _ w => (1, w).

End Demo.



(** ** Further names *)

(** The world with another [sys.executable]. *)
Definition with_sys_executable (exe : string) (w : World) : World := {|
  environ := environ w;
  __file__ := __file__ w;
  sys_executable := exe;
  realpath := realpath w;
  exists_ := exists_ w;
  glob := glob w;
  scandir := scandir w;
  repr := repr w;
|}.

(** The index of the last separator of a path, [-1] when it has none, as
    [_splitext] computes it. *)
Definition sep_index `{OsPath} (p : string) : Z :=
  match altsep with
  | Some a => Z.max (Str.rfind sep p) (Str.rfind a p)
  | None => Str.rfind sep p
  end.

(** The separators of the path flavour do not occur in [s]. *)
Definition separators_outside `{OsPath} (s : string) : Prop :=
  Str.mem sep s = false /\ forall a, altsep = Some a -> Str.mem a s = false.

(** What follows the last separator of a path. *)
Definition last_component `{OsPath} (p : string) : string :=
  Str.drop (Z.to_nat (sep_index p + 1)) p.

(** The number of directories below the top of a tree, at any depth, that
    a walk lists: the ones it does not descend into count, what lies below
    them does not. *)
Fixpoint count_dirs (t : dtree) : nat :=
  match t with
  | Dir dirs _ => fold_right (fun e n => S (count_dirs (snd e) + n)) O dirs
  | Unlisted => O
  end.

(** ** An installation in the working directory

    [TCC_ROOT] is set to the empty string and [tcc.exe] lies in the working
    directory, next to an [include] directory with a [sys] sub-directory. *)

Module Cwd.

Definition files : list string :=
  [ "tcc.exe"; "include"; "include/stdio.h"; "include/sys";
    "include/sys/types.h" ].

Definition include_tree : dtree := Dir [ ("sys", Dir [] ["types.h"]) ] ["stdio.h"].

Definition matches (pattern : string) : list string :=
  if String.eqb pattern "include/*.h" then ["include/stdio.h"]
  else if String.eqb pattern "include/sys/*.h" then ["include/sys/types.h"]
  else if String.eqb pattern "*.exe" then ["tcc.exe"]
  else [].

Definition listing (top : string) : option dtree :=
  if String.eqb top "include" then Some include_tree else None.

Definition installed : World := {|
  environ := {[ KEY := "" ]};
  __file__ := "/site/tinycc/__init__.py";
  sys_executable := "/usr/bin/python";
  realpath := fun p => p;
  exists_ := fun p => bool_decide (p ∈ files);
  glob := matches;
  scandir := listing;
  repr := fun s => "'" +:+ s +:+ "'";
|}.

End Cwd.

(** * Properties *)

(** ** Strings *)

Lemma append_cons (a : ascii) (s t : string) :
  String a s +:+ t = String a (s +:+ t).
Proof. reflexivity. Qed.

Lemma append_nil_l (s : string) : "" +:+ s = s.
Proof. reflexivity. Qed.

Lemma append_nil_r (s : string) : s +:+ "" = s.
Proof.
  induction s as [|a s IH]; [reflexivity|].
  rewrite append_cons. f_equal. exact IH.
Qed.

Lemma append_assoc (a b c : string) : (a +:+ b) +:+ c = a +:+ (b +:+ c).
Proof.
  induction a as [|x a IH]; [reflexivity|].
  rewrite !append_cons. f_equal. exact IH.
Qed.

Lemma snoc_append (out : string) (c : ascii) (s : string) :
  Fmt.snoc out c +:+ s = out +:+ String c s.
Proof. unfold Fmt.snoc. now rewrite append_assoc. Qed.

Lemma take_drop (n : nat) (s : string) : Str.take n s +:+ Str.drop n s = s.
Proof.
  revert s; induction n as [|n IH]; intros [|a s]; try reflexivity.
  cbn [Str.take Str.drop]. rewrite append_cons. f_equal. apply IH.
Qed.

Lemma drop_append_length (a b : string) : Str.drop (String.length a) (a +:+ b) = b.
Proof. induction a as [|x a IH]; [now destruct b | exact IH]. Qed.

Lemma rfind_lower (c : ascii) (s : string) : -1 <= Str.rfind c s.
Proof.
  induction s as [|a s IH]; simpl; [lia|].
  destruct (0 <=? Str.rfind c s) eqn:E; [lia|].
  destruct (Ascii.eqb a c); lia.
Qed.

Lemma rfind_absent (c : ascii) (s : string) :
  Str.rfind c s < 0 -> Str.mem c s = false.
Proof.
  induction s as [|a s IH]; simpl; [reflexivity|].
  destruct (0 <=? Str.rfind c s) eqn:E.
  - apply Z.leb_le in E. lia.
  - apply Z.leb_gt in E. destruct (Ascii.eqb a c); [lia|].
    intros _. now apply IH.
Qed.

(** The character at [s.rfind(c)] is [c], and [c] does not occur after it. *)
Lemma rfind_last (c : ascii) (s : string) :
  0 <= Str.rfind c s ->
  exists rest,
    Str.drop (Z.to_nat (Str.rfind c s)) s = String c rest
    /\ Str.mem c rest = false.
Proof.
  induction s as [|a s IH]; simpl; [lia|].
  destruct (0 <=? Str.rfind c s) eqn:E.
  - apply Z.leb_le in E. intros _.
    destruct (IH E) as (rest & Hd & Hm). exists rest. split; [|exact Hm].
    replace (Z.to_nat (Str.rfind c s + 1)) with (S (Z.to_nat (Str.rfind c s)))
      by lia.
    exact Hd.
  - apply Z.leb_gt in E.
    destruct (Ascii.eqb_spec a c) as [->|Hne]; [|lia].
    intros _. exists s. split; [reflexivity | now apply rfind_absent].
Qed.

(** Nothing after the last occurrence of [c] is [c]. *)
Lemma rfind_before (c : ascii) (s : string) (n : nat) :
  Str.rfind c s < Z.of_nat n -> Str.mem c (Str.drop n s) = false.
Proof.
  revert n; induction s as [|a s IH]; intros [|n]; simpl; try reflexivity.
  - destruct (0 <=? Str.rfind c s) eqn:E.
    + apply Z.leb_le in E. lia.
    + apply Z.leb_gt in E. destruct (Ascii.eqb a c); [lia|].
      intros _. now apply rfind_absent.
  - intros Hlt. apply IH.
    destruct (0 <=? Str.rfind c s) eqn:E.
    + lia.
    + apply Z.leb_gt in E. lia.
Qed.

(** ** The [%] operator *)

(** A part of the template without [%] is copied to the output. *)
Lemma format_literal (m : gmap string string) (lit out rest : string) :
  percent_free lit = true ->
  Fmt.go m Fmt.Text out (lit +:+ rest) = Fmt.go m Fmt.Text (out +:+ lit) rest.
Proof.
  unfold percent_free. revert out.
  induction lit as [|a lit IH]; intros out Hfree.
  - now rewrite append_nil_l, append_nil_r.
  - cbn [Str.mem] in Hfree. apply negb_true_iff, orb_false_iff in Hfree.
    destruct Hfree as [Ha Hlit].
    rewrite append_cons. cbn [Fmt.go]. rewrite Ha.
    rewrite IH by now rewrite Hlit. now rewrite snoc_append.
Qed.

(** [%(source)s] is replaced by the value the mapping holds for [source]. *)
Lemma format_source (m : gmap string string) (out rest v : string) :
  m !! "source" = Some v ->
  Fmt.go m Fmt.Text out ("%(source)s" +:+ rest) = Fmt.go m Fmt.Text (out +:+ v) rest.
Proof.
  intros Hsrc.
  change (Fmt.go m Fmt.Text out ("%(source)s" +:+ rest))
    with (match m !! "source" with
          | Some v => Fmt.go m Fmt.Text (out +:+ v) rest
          | None => Fmt.Failed (KeyError "source")
          end).
  now rewrite Hsrc.
Qed.

(** The fixed part of the command template: [%(source)s] is replaced by the
    source, and [$(target)s], which is no conversion specification, is copied
    as it stands. *)
Lemma format_flags (m : gmap string string) (out source : string) :
  m !! "source" = Some source ->
  Fmt.go m Fmt.Text out " -shared -rdynamic -Wall %(source)s -o $(target)s"
  = Fmt.Formatted
      (out +:+ " -shared -rdynamic -Wall " +:+ source +:+ " -o $(target)s").
Proof.
  intros Hsrc.
  change " -shared -rdynamic -Wall %(source)s -o $(target)s"
    with (" -shared -rdynamic -Wall " +:+ "%(source)s" +:+ " -o $(target)s" +:+ "").
  rewrite format_literal by reflexivity.
  rewrite (format_source m _ _ source Hsrc).
  rewrite format_literal by reflexivity.
  cbn [Fmt.go]. now rewrite !append_assoc.
Qed.

(** The command that [compile] runs, for an executable path without [%]. *)
Lemma command_line_value (TCC source target : string) :
  percent_free TCC = true ->
  command_line TCC source target
  = Some (TCC +:+ " -shared -rdynamic -Wall " +:+ source +:+ " -o $(target)s").
Proof.
  intros Hfree. unfold command_line, Fmt.format, Fmt.run.
  rewrite format_literal by exact Hfree.
  now rewrite (format_flags _ _ source) by apply lookup_insert_eq.
Qed.
Example posix_join_ex : posix.join "/opt/tcc" [""; "*.exe"] = "/opt/tcc/*.exe".
Proof. reflexivity. Qed.
Example posix_dirname_ex : posix.dirname "/opt/tcc/tcc.exe" = "/opt/tcc".
Proof. reflexivity. Qed.
Example posix_dirname_root : posix.dirname "//tcc.exe" = "//".
Proof. reflexivity. Qed.
Example splitext_ex1 : splitext "src/hello.c" = ("src/hello", ".c").
Proof. reflexivity. Qed.
Example splitext_ex2 : splitext "a.b/.bashrc" = ("a.b/.bashrc", "").
Proof. reflexivity. Qed.
Example splitext_ex3 : splitext "a.tar.gz" = ("a.tar", ".gz").
Proof. reflexivity. Qed.
Example split_ex : Str.split "," "*.exe,*.dll" = ["*.exe"; "*.dll"].
Proof. reflexivity. Qed.
Example format_ex1 :
  Fmt.format "100%% of %(a)s, $(a)s" {[ "a" := "x" ]} = Some "100% of x, $(a)s".
Proof. reflexivity. Qed.
Example format_ex2 : Fmt.format "%(b)s" {[ "a" := "x" ]} = None.
Proof. reflexivity. Qed.
Example format_ex3 : Fmt.format "50%done" {[ "a" := "x" ]} = None.
Proof. reflexivity. Qed.
Example run_unsupported : Fmt.run "100%/x" {[ "a" := "x" ]} = Fmt.Failed ValueError.
Proof. reflexivity. Qed.
Example run_incomplete : Fmt.run "100%" {[ "a" := "x" ]} = Fmt.Failed ValueError.
Proof. reflexivity. Qed.
Example run_missing_key :
  Fmt.run "%(b)s" {[ "a" := "x" ]} = Fmt.Failed (KeyError "b").
Proof. reflexivity. Qed.
Example run_other_conversion : Fmt.run "50%done" {[ "a" := "x" ]} = Fmt.Unmodelled.
Proof. reflexivity. Qed.
Example walk_ex :
  walk Demo.installed "/opt/tcc/include"
  = [ ("/opt/tcc/include", ["sys"; "winapi"], ["stdio.h"]);
      ("/opt/tcc/include/sys", [], ["types.h"]);
      ("/opt/tcc/include/winapi", [], ["windows.h"]) ].
Proof. reflexivity. Qed.
Example TCC_installed : TCC Demo.installed = Return Demo.tcc.
Proof. reflexivity. Qed.
Example TCC_bare : TCC Demo.bare = Raise TypeError.
Proof. reflexivity. Qed.


(** ** Locating the executable *)

Section find_tcc_path.
Context `{OsPath}.

Lemma find_tcc_path_override (w : World) (root : string) :
  environ w !! KEY = Some root ->
  find_tcc_path w =
    if exists_ w (join root [EXE]) then Return (join root [EXE])
    else Raise (override_error w root).
Proof.
  intros Henv. unfold find_tcc_path. rewrite Henv.
  destruct (exists_ w (join root [EXE])); reflexivity.
Qed.

Lemma find_tcc_path_no_override (w : World) :
  environ w !! KEY = None ->
  find_tcc_path w =
    if exists_ w (package_candidate w) then Return (package_candidate w)
    else Raise TypeError.
Proof.
  intros Henv. unfold find_tcc_path, package_candidate. rewrite Henv.
  destruct (exists_ w _); reflexivity.
Qed.

(** The final [raise ImportError] is never reached. *)
Lemma find_tcc_path_never_ImportError (w : World) (msg : string) :
  find_tcc_path w <> Raise (ImportError msg).
Proof.
  destruct (environ w !! KEY) as [root|] eqn:Henv.
  - rewrite (find_tcc_path_override w root Henv).
    destruct (exists_ w _); discriminate.
  - rewrite (find_tcc_path_no_override w Henv).
    destruct (exists_ w _); discriminate.
Qed.

(** C5: when [TCC_ROOT] is set and the directory it names does not contain
    [tcc.exe], [find_tcc_path] raises the [RuntimeError] that names the
    override; no path is returned, whatever the other candidate locations
    hold. *)
Theorem find_tcc_path_override_missing (w : World) (root : string) :
  environ w !! KEY = Some root ->
  exists_ w (join root [EXE]) = false ->
  find_tcc_path w = Raise (override_error w root)
  /\ forall path, find_tcc_path w <> Return path.
Proof.
  intros Henv Hmiss.
  rewrite (find_tcc_path_override w root Henv), Hmiss.
  split; [reflexivity | discriminate].
Qed.

(** C6: when [TCC_ROOT] is set and the directory it names contains
    [tcc.exe], [find_tcc_path] returns that directory joined with
    ['tcc.exe'], whatever the other candidate locations hold. *)
Theorem find_tcc_path_override_present (w : World) (root : string) :
  environ w !! KEY = Some root ->
  exists_ w (join root [EXE]) = true ->
  find_tcc_path w = Return (join root [EXE]).
Proof.
  intros Henv Hhit.
  rewrite (find_tcc_path_override w root Henv), Hhit. reflexivity.
Qed.

(** C2: with no override and no [tcc.exe] in the package directory,
    [find_tcc_path] raises [TypeError] (from the call of [dirname] with
    three arguments), not the [ImportError] of its last line; the directory
    next to the running program is never looked at. *)
Theorem find_tcc_path_no_candidate (w : World) :
  environ w !! KEY = None ->
  exists_ w (package_candidate w) = false ->
  find_tcc_path w = Raise TypeError
  /\ find_tcc_path w <> Raise (ImportError "Could not locate tcc.exe").
Proof.
  intros Henv Hmiss.
  rewrite (find_tcc_path_no_override w Henv), Hmiss.
  split; [reflexivity | discriminate].
Qed.

(** C8 (amended): the override is checked first and decides alone when it
    is set; when it is not set, the package directory is checked, and its
    [tcc.exe] is returned when present. *)
Theorem find_tcc_path_order (w : World) :
  (forall root, environ w !! KEY = Some root ->
     find_tcc_path w =
       if exists_ w (join root [EXE]) then Return (join root [EXE])
       else Raise (override_error w root))
  /\ (environ w !! KEY = None ->
      exists_ w (package_candidate w) = true ->
      find_tcc_path w = Return (package_candidate w)).
Proof.
  split.
  - intros root Henv. apply find_tcc_path_override, Henv.
  - intros Henv Hhit.
    rewrite (find_tcc_path_no_override w Henv), Hhit. reflexivity.
Qed.

(** Whenever [find_tcc_path] returns, it returns the first existing
    candidate of the specification's list. *)
Lemma find_tcc_path_return_first (w : World) (path : string) :
  find_tcc_path w = Return path -> first_candidate w = Return path.
Proof.
  unfold first_candidate, candidates.
  destruct (environ w !! KEY) as [root|] eqn:Henv.
  - rewrite (find_tcc_path_override w root Henv).
    destruct (exists_ w (join root [EXE])) eqn:Hex; [|discriminate].
    intros [= <-]. simpl. rewrite Hex. reflexivity.
  - rewrite (find_tcc_path_no_override w Henv).
    destruct (exists_ w (package_candidate w)) eqn:Hex; [|discriminate].
    intros [= <-]. simpl. rewrite Hex. reflexivity.
Qed.

End find_tcc_path.

(** The override names [/nowhere]; the [tcc.exe] of the package directory is
    not used. *)
Lemma find_tcc_path_override_missing_witness :
  exists_ Demo.misconfigured Demo.package_exe = true
  /\ find_tcc_path Demo.misconfigured
     = Raise (RuntimeError "TCC_ROOT '/nowhere' does not contain tcc.exe").
Proof.
  split; [reflexivity|].
  exact (proj1 (find_tcc_path_override_missing Demo.misconfigured "/nowhere"
                  eq_refl eq_refl)).
Defined.

(** Both the override and the package directory hold a [tcc.exe]; the one of
    the override is returned. *)
Lemma find_tcc_path_override_present_witness :
  exists_ Demo.installed_twice Demo.package_exe = true
  /\ find_tcc_path Demo.installed_twice = Return "/opt/tcc/tcc.exe".
Proof.
  split; [reflexivity|].
  exact (find_tcc_path_override_present Demo.installed_twice "/opt/tcc"
           eq_refl eq_refl).
Defined.

(** No [tcc.exe] anywhere and no override. *)
Lemma find_tcc_path_no_candidate_witness :
  find_tcc_path Demo.bare = Raise TypeError.
Proof.
  exact (proj1 (find_tcc_path_no_candidate Demo.bare eq_refl eq_refl)).
Defined.

(** No override, and a [tcc.exe] in the package directory. *)
Lemma find_tcc_path_order_witness :
  find_tcc_path Demo.packaged = Return Demo.package_exe.
Proof.
  exact (proj2 (find_tcc_path_order Demo.packaged) eq_refl eq_refl).
Defined.

(** C8 as stated fails: with [TCC_ROOT] naming a directory without [tcc.exe]
    and a [tcc.exe] in the package directory, the first candidate that
    contains the executable is the package one, yet [find_tcc_path] raises. *)
Lemma find_tcc_path_not_first_candidate :
  first_candidate Demo.misconfigured = Return Demo.package_exe
  /\ find_tcc_path Demo.misconfigured
     = Raise (RuntimeError "TCC_ROOT '/nowhere' does not contain tcc.exe")
  /\ find_tcc_path Demo.misconfigured <> first_candidate Demo.misconfigured.
Proof.
  split; [reflexivity|]. split; [reflexivity|]. vm_compute. discriminate.
Qed.

(** ** Compiling *)

Section compile.
Context `{OsPath}.

(** [splitext] cuts its argument in two, and the second part is an
    extension. *)
Lemma splitext_parts (p : string) :
  p = fst (splitext p) +:+ snd (splitext p) /\ is_extension (snd (splitext p)).
Proof.
  unfold splitext, _splitext.
  set (sepIndex := match altsep with
                   | Some a => Z.max (Str.rfind sep p) (Str.rfind a p)
                   | None => Str.rfind sep p
                   end).
  set (dotIndex := Str.rfind extsep p).
  destruct (sepIndex <? dotIndex) eqn:Hlt; cbn [andb];
    [destruct (Str.has_other extsep _) | ]; cbn [fst snd];
    try (split; [now rewrite append_nil_r | now left]).
  apply Z.ltb_lt in Hlt.
  split; [now rewrite take_drop|]. right.
  assert (Hsep : Str.rfind sep p <= sepIndex)
    by (subst sepIndex; destruct altsep; lia).
  pose proof (rfind_lower sep p) as Hlow.
  destruct (rfind_last extsep p) as (e & Hdrop & Hdot); [fold dotIndex; lia|].
  fold dotIndex in Hdrop. exists e. split; [exact Hdrop|]. split; [exact Hdot|].
  assert (Hafter : forall c, Str.rfind c p < dotIndex -> Str.mem c e = false).
  { intros c Hc.
    pose proof (rfind_before c p (Z.to_nat dotIndex)) as Hb.
    rewrite Hdrop in Hb. cbn [Str.mem] in Hb.
    apply orb_false_iff in Hb; [tauto | lia]. }
  split.
  - apply Hafter. lia.
  - intros a Ha. apply Hafter. subst sepIndex. rewrite Ha in Hlt. lia.
Qed.

(** [compile] formats the command with the target of line 71; an
    exception of the formatting is raised as it is, and a formatted command
    is run. *)
Lemma compile_unfold (TCC : string) (system : Shell) (w : World)
    (source : string) (target : option string) :
  compile TCC system w source target =
    match Fmt.run (TCC +:+ " -shared -rdynamic -Wall %(source)s -o $(target)s")
                  {[ "source" := source;
                     "target" := target_used source target ]} with
    | Fmt.Failed e => Some (Raise e, w)
    | Fmt.Unmodelled => None
    | Fmt.Formatted command =>
        let (status, w') := system command w in
        if negb (status =? 0) || negb (exists_ w' (target_used source target))
        then Some (Raise (RuntimeError ("compile failed.  File is in "
                                        +:+ repr w' source)), w')
        else Some (Return (target_used source target), w')
    end.
Proof. reflexivity. Qed.

(** Once the command is formatted, [compile] runs it and decides on the
    exit status and on the existence of the target afterwards. *)
Lemma compile_after_command (TCC : string) (system : Shell) (w : World)
    (source : string) (target : option string) (command : string) :
  command_line TCC source (target_used source target) = Some command ->
  compile TCC system w source target =
    let (status, w') := system command w in
    if negb (status =? 0) || negb (exists_ w' (target_used source target))
    then Some (Raise (RuntimeError ("compile failed.  File is in "
                                    +:+ repr w' source)), w')
    else Some (Return (target_used source target), w').
Proof.
  unfold command_line, Fmt.format. rewrite compile_unfold.
  destruct (Fmt.run _ _); [|discriminate..]. now intros [= ->].
Qed.


(** C4 (amended): for an executable path without [%] the command is
    spawned, and [compile] raises if and only if its exit status is not zero
    or the target does not exist afterwards; otherwise it returns the target
    path. *)
Theorem compile_fails_iff (TCC : string) (system : Shell) (w : World)
    (source : string) (target : option string) :
  percent_free TCC = true ->
  exists status w' r,
    system (TCC +:+ " -shared -rdynamic -Wall " +:+ source
            +:+ " -o $(target)s") w = (status, w')
    /\ compile TCC system w source target = Some (r, w')
    /\ (raises r <->
        status <> 0 \/ exists_ w' (target_used source target) = false)
    /\ (~ raises r -> r = Return (target_used source target)).
Proof.
  intros Hfree.
  rewrite (compile_after_command TCC system w source target _
             (command_line_value TCC source _ Hfree)).
  destruct (system _ w) as [status w'].
  exists status, w'.
  destruct (Z.eqb_spec status 0) as [Hz|Hnz]; cbn [negb orb].
  - destruct (exists_ w' (target_used source target)) eqn:Hex; cbn [negb].
    + eexists. split; [reflexivity|]. split; [reflexivity|]. cbn [raises].
      split; [|tauto]. split; [tauto|].
      intros [Hs|Hf]; [lia | discriminate].
    + eexists. split; [reflexivity|]. split; [reflexivity|]. cbn [raises].
      tauto.
  - eexists. split; [reflexivity|]. split; [reflexivity|]. cbn [raises]. tauto.
Qed.

(** For an executable path without [%], failure is as the specification
    words it. *)
Lemma fails_iff_command_fails_percent_free (TCC : string) (system : Shell)
    (w : World) (source : string) (target : option string) :
  percent_free TCC = true -> fails_iff_command_fails TCC system w source target.
Proof.
  intros Hfree. unfold fails_iff_command_fails.
  rewrite (compile_after_command TCC system w source target _
             (command_line_value TCC source _ Hfree)).
  destruct (system _ w) as [status w'] eqn:Hrun.
  exists (TCC +:+ " -shared -rdynamic -Wall " +:+ source +:+ " -o $(target)s"),
         status, w'.
  destruct (Z.eqb_spec status 0) as [Hz|Hnz]; cbn [negb orb].
  - destruct (exists_ w' (target_used source target)) eqn:Hex; cbn [negb].
    + eexists. split; [exact Hrun|]. split; [reflexivity|]. cbn [raises].
      split; [|tauto]. split; [tauto|].
      intros [Hs|Hf]; [lia | discriminate].
    + eexists. split; [exact Hrun|]. split; [reflexivity|]. cbn [raises].
      tauto.
  - eexists. split; [exact Hrun|]. split; [reflexivity|]. cbn [raises]. tauto.
Qed.

(** C9: with an explicit target, what [compile] returns when it succeeds is
    that target, unchanged, and it is that path whose existence was checked. *)
Theorem compile_explicit_target (TCC : string) (system : Shell) (w : World)
    (source t path : string) (w' : World) :
  compile TCC system w source (Some t) = Some (Return path, w') ->
  path = t /\ target_used source (Some t) = t /\ exists_ w' t = true.
Proof.
  rewrite compile_unfold. cbn [target_used].
  destruct (Fmt.run _ _) as [command|e|]; [|discriminate..].
  destruct (system command w) as [status w1].
  destruct (negb (status =? 0)); cbn [orb]; [discriminate|].
  destruct (exists_ w1 t) eqn:Hex; cbn [negb]; [|discriminate].
  intros [= <- <-]. auto.
Qed.

(** An explicit target never reaches the command line: the command is the
    same for every target. *)
Lemma command_line_ignores_target (TCC source t1 t2 : string) :
  percent_free TCC = true ->
  command_line TCC source t1 = command_line TCC source t2.
Proof. intros Hfree. now rewrite !command_line_value. Qed.

End compile.

(** A command that exits with status 1. *)
Lemma compile_fails_iff_witness :
  exists status w' r,
    Demo.sh_false (Demo.tcc +:+ " -shared -rdynamic -Wall " +:+ "hello.c"
                   +:+ " -o $(target)s") Demo.built = (status, w')
    /\ compile Demo.tcc Demo.sh_false Demo.built "hello.c" None = Some (r, w')
    /\ (raises r <->
        status <> 0 \/ exists_ w' (target_used "hello.c" None) = false)
    /\ (~ raises r -> r = Return (target_used "hello.c" None)).
Proof.
  exact (compile_fails_iff Demo.tcc Demo.sh_false Demo.built "hello.c" None
           eq_refl).
Defined.

Example compile_percent_path :
  compile Demo.tcc_percent Demo.sh_true Demo.built "hello.c" None
  = Some (Raise ValueError, Demo.built).
Proof. reflexivity. Qed.

(** C4 as stated fails: with [tcc.exe] below a directory named [100%] the
    formatting of line 73 raises [ValueError] before any command is run,
    although [hello.dll] exists and every command of the shell exits with
    status 0. *)
Lemma compile_raises_without_command :
  ~ fails_iff_command_fails Demo.tcc_percent Demo.sh_true Demo.built
      "hello.c" None.
Proof.
  intros (command & status & w' & r & Hrun & Hcompile & Hiff & _).
  injection Hrun as <- <-.
  change (Some (Raise ValueError, Demo.built) = Some (r, Demo.built))
    in Hcompile.
  injection Hcompile as <-.
  destruct (proj1 Hiff I) as [Hstatus | Hmissing];
    [now apply Hstatus | discriminate Hmissing].
Qed.

(** [compile("hello.c", "out/hello.so")] where the target exists and the
    command exits with status 0. *)
Lemma compile_explicit_target_witness :
  compile Demo.tcc Demo.sh_true Demo.built "hello.c" (Some "out/hello.so")
  = Some (Return "out/hello.so", Demo.built)
  /\ exists_ Demo.built "out/hello.so" = true.
Proof.
  split; [reflexivity|].
  exact (proj2 (proj2 (compile_explicit_target Demo.tcc Demo.sh_true Demo.built
                         "hello.c" "out/hello.so" "out/hello.so" Demo.built
                         eq_refl))).
Defined.

(** C1: for [compile("hello.c", "out.dll")] the command handed to the shell
    ends in the literal [$(target)s]; it is not the command of the fixed
    shape, and the target path does not occur in it. *)
Theorem compile_command_omits_target :
  command_line Demo.tcc "hello.c" "out.dll"
  = Some (Demo.tcc +:+ " -shared -rdynamic -Wall hello.c -o $(target)s")
  /\ command_line Demo.tcc "hello.c" "out.dll"
     <> Some (stated_command Demo.tcc "hello.c" "out.dll")
  /\ (forall command,
        command_line Demo.tcc "hello.c" "out.dll" = Some command ->
        Str.isin "out.dll" command = false).
Proof.
  split; [reflexivity|]. split.
  - vm_compute. discriminate.
  - intros command. vm_compute. intros [= <-]. reflexivity.
Qed.

(** ** The manifest *)

Lemma fold_left_extend {A B : Type} (f : list B -> A -> list B)
    (g : A -> list B) (l : list A) (init : list B) :
  (forall acc x, f acc x = acc ++ g x) ->
  fold_left f l init = init ++ flat_map g l.
Proof.
  intros Hf. revert init.
  induction l as [|x l IH]; intros init; cbn [fold_left flat_map].
  - now rewrite app_nil_r.
  - now rewrite IH, Hf, <- app_assoc.
Qed.

Lemma flat_map_singleton {A B : Type} (g : A -> B) (l : list A) :
  flat_map (fun x => [g x]) l = map g l.
Proof. induction l as [|x l IH]; cbn; [reflexivity | now rewrite IH]. Qed.

Section data_files.
Context `{OsPath}.

Lemma _find_files_destination (w : World) (ROOT path patterns : string) :
  fst (_find_files w ROOT path patterns) = destination path.
Proof. reflexivity. Qed.

Lemma _find_files_files (w : World) (ROOT path patterns : string) :
  snd (_find_files w ROOT path patterns)
  = flat_map (fun pattern => glob w (join ROOT [path; pattern]))
             (Str.split "," patterns).
Proof.
  unfold _find_files. cbn [snd].
  now rewrite (fold_left_extend _
                 (fun pattern => glob w (join ROOT [path; pattern]))).
Qed.

(** A search in which no pattern matches still returns an entry. *)
Lemma _find_files_no_match (w : World) (ROOT path patterns : string) :
  Forall (fun pattern => glob w (join ROOT [path; pattern]) = [])
         (Str.split "," patterns) ->
  _find_files w ROOT path patterns = (destination path, []).
Proof.
  intros Hglob.
  rewrite (surjective_pairing (_find_files w ROOT path patterns)).
  rewrite _find_files_destination, _find_files_files. f_equal.
  induction Hglob as [|x l Hx _ IH]; cbn [flat_map];
    [reflexivity | now rewrite Hx, IH].
Qed.

(** The manifest, entry by entry. *)
Lemma data_files_value (w : World) (exe : string) :
  find_tcc_path w = Return exe ->
  data_files w =
    Return (_find_files w (dirname exe) "include" "*.h"
            :: map (fun path => _find_files w (dirname exe) path "*.h")
                   (walked_dirs w (dirname exe))
            ++ [ _find_files w (dirname exe) "lib" "*";
                 _find_files w (dirname exe) "libtcc" "*";
                 _find_files w (dirname exe) "" "*.exe,*.dll" ]).
Proof.
  intros Hfind. unfold data_files. rewrite Hfind.
  cbn [mbind result_bind]. f_equal.
  rewrite (fold_left_extend _
             (fun '(path, dirs, _) =>
                map (fun d =>
                       _find_files w (dirname exe)
                         (join (Str.drop (String.length (dirname exe) + 1) path)
                               [d]) "*.h") dirs)).
  - cbn [app]. rewrite <- !app_assoc. cbn [app]. do 2 f_equal.
    unfold walked_dirs.
    induction (walk w (join (dirname exe) ["include"])) as [|[[path dirs] nd] l IH];
      cbn [flat_map]; [reflexivity|].
    now rewrite map_app, map_map, IH.
  - intros acc [[path dirs] nd].
    rewrite (fold_left_extend _
               (fun d =>
                  [_find_files w (dirname exe)
                     (join (Str.drop (String.length (dirname exe) + 1) path)
                           [d]) "*.h"]))
      by reflexivity.
    now rewrite flat_map_singleton.
Qed.

(** C3 (amended): the manifest holds one entry for [include], one for every
    sub-directory the walk of the include tree lists, and one each for [lib],
    [libtcc] and the compiler root.  A missing include tree contributes no
    sub-directory, but a searched directory in which nothing matches, as in
    one that does not exist, still has its entry, with an empty file list. *)
Theorem data_files_entries (w : World) (exe : string) :
  find_tcc_path w = Return exe ->
  data_files w =
    Return (_find_files w (dirname exe) "include" "*.h"
            :: map (fun path => _find_files w (dirname exe) path "*.h")
                   (walked_dirs w (dirname exe))
            ++ [ _find_files w (dirname exe) "lib" "*";
                 _find_files w (dirname exe) "libtcc" "*";
                 _find_files w (dirname exe) "" "*.exe,*.dll" ])
  /\ (scandir w (join (dirname exe) ["include"]) = None ->
      walked_dirs w (dirname exe) = [])
  /\ (forall path patterns,
        Forall (fun pattern => glob w (join (dirname exe) [path; pattern]) = [])
               (Str.split "," patterns) ->
        _find_files w (dirname exe) path patterns = (destination path, [])).
Proof.
  intros Hfind. split; [now apply data_files_value|]. split.
  - intros Hnone. unfold walked_dirs, walk. now rewrite Hnone.
  - intros path patterns. apply _find_files_no_match.
Qed.

End data_files.

Lemma data_files_installed : data_files Demo.installed = Return Demo.manifest.
Proof. reflexivity. Qed.

(** The manifest of [Demo.installed], and its entry for the missing
    [libtcc]. *)
Lemma data_files_entries_witness :
  data_files Demo.installed = Return Demo.manifest
  /\ _find_files Demo.installed "/opt/tcc" "libtcc" "*" = ("tinycc-data/libtcc", []).
Proof.
  pose proof (data_files_entries Demo.installed "/opt/tcc/tcc.exe" eq_refl)
    as (Hval & _ & Hempty).
  split; [exact Hval|].
  exact (Hempty "libtcc" "*" (List.Forall_cons _ "*" [] eq_refl (List.Forall_nil _))).
Defined.

(** C3 as stated fails: [/opt/tcc/libtcc] does not exist, it is searched,
    and the manifest pairs its destination with an empty list of files. *)
Lemma data_files_lists_absent_dir :
  ~ no_empty_entry_for_absent_dir Demo.installed.
Proof.
  intros Hclaim.
  apply (Hclaim "/opt/tcc/tcc.exe" Demo.manifest "libtcc");
    try reflexivity.
  - apply list_elem_of_In. vm_compute. tauto.
  - apply list_elem_of_In. vm_compute. tauto.
Qed.

(** ** Destinations under [posixpath] *)

Lemma startswith_append (c : ascii) (a b : string) :
  Str.nonempty a = true -> Str.startswith c (a +:+ b) = Str.startswith c a.
Proof. destruct a; [discriminate | reflexivity]. Qed.

Lemma nonempty_append_l (a b : string) :
  Str.nonempty a = true -> Str.nonempty (a +:+ b) = true.
Proof. destruct a; [discriminate | reflexivity]. Qed.

Lemma nonempty_append_r (a b : string) :
  Str.nonempty b = true -> Str.nonempty (a +:+ b) = true.
Proof. destruct a; [now rewrite append_nil_l | reflexivity]. Qed.

Lemma endswith_cons (c x : ascii) (s : string) :
  Str.nonempty s = true -> Str.endswith c (String x s) = Str.endswith c s.
Proof. destruct s; [discriminate | reflexivity]. Qed.

Lemma endswith_append (c : ascii) (a b : string) :
  Str.nonempty b = true -> Str.endswith c (a +:+ b) = Str.endswith c b.
Proof.
  intros Hb. induction a as [|x a IH]; [reflexivity|].
  rewrite append_cons, endswith_cons; [exact IH|].
  now apply nonempty_append_r.
Qed.

Lemma mem_endswith (c : ascii) (s : string) :
  Str.mem c s = false -> Str.endswith c s = false.
Proof.
  induction s as [|a s IH]; [reflexivity|].
  cbn [Str.mem]. intros Hm. apply orb_false_iff in Hm as [Ha Hs].
  destruct s as [|b s]; [exact Ha|].
  rewrite endswith_cons by reflexivity. now apply IH.
Qed.

Lemma drop_append_more (a b : string) (n : nat) :
  Str.drop (String.length a + n) (a +:+ b) = Str.drop n b.
Proof. induction a as [|x a IH]; [reflexivity | exact IH]. Qed.

Lemma valid_name_relative (d : string) :
  valid_name d = true ->
  Str.nonempty d = true
  /\ Str.startswith posix.sep d = false
  /\ Str.endswith posix.sep d = false.
Proof.
  unfold valid_name. intros Hv. apply andb_true_iff in Hv as [Hn Hm].
  apply negb_true_iff in Hm. split; [exact Hn|]. split.
  - destruct d as [|a d]; [reflexivity|].
    cbn [Str.mem] in Hm. now apply orb_false_iff in Hm as [Ha _].
  - now apply mem_endswith.
Qed.

(** Joining a relative path to an open-ended one puts a separator between
    the two. *)
Lemma join_relative (a b : string) :
  open_ended a -> Str.startswith posix.sep b = false ->
  posix.join a [b] = a +:+ String posix.sep b.
Proof.
  intros [Hn He] Hb. unfold posix.join. cbn [fold_left].
  unfold posix.join_step. now rewrite Hb, Hn, He.
Qed.

Lemma join_name_open_ended (a d : string) :
  open_ended a -> valid_name d = true ->
  posix.join a [d] = a +:+ String posix.sep d /\ open_ended (posix.join a [d]).
Proof.
  intros Ha Hd. destruct (valid_name_relative d Hd) as (Hn & Hs & He).
  rewrite (join_relative a d Ha Hs). split; [reflexivity|]. split.
  - now apply nonempty_append_l, Ha.
  - rewrite endswith_append by reflexivity. now rewrite endswith_cons.
Qed.

Lemma include_open_ended (ROOT : string) :
  open_ended (posix.join ROOT ["include"]).
Proof.
  unfold posix.join. cbn [fold_left]. unfold posix.join_step.
  change (Str.startswith posix.sep "include") with false. cbn iota.
  destruct (negb (Str.nonempty ROOT) || Str.endswith posix.sep ROOT); split;
    try (apply nonempty_append_r; reflexivity);
    now rewrite endswith_append.
Qed.

(** Every path that a walk yields extends the top of the walk, is
    open-ended, and comes with valid directory names. *)
Lemma walk_tree_paths (t : dtree) :
  forall top, tree_ok t = true -> open_ended top ->
  Forall (fun e =>
            (exists suffix, e.1.1 = top +:+ suffix)
            /\ open_ended e.1.1
            /\ Forall (fun d => valid_name d = true) e.1.2)
         (walk_tree top t).
Proof.
  induction t as [dirs nondirs IH|] using dtree_nested_ind;
    intros top Hok Hop; cbn [walk_tree]; [|constructor].
  cbn [tree_ok] in Hok.
  assert (Forall (fun d => valid_name d = true) (map fst dirs)
          /\ Forall (fun e =>
                       (exists suffix, e.1.1 = top +:+ suffix)
                       /\ open_ended e.1.1
                       /\ Forall (fun d => valid_name d = true) e.1.2)
                    (flat_map (fun e => walk_tree (join top [e.1]) e.2) dirs))
    as [Hnames Hsub].
  { induction IH as [|e l He _ IHl]; [split; constructor|].
    cbn [forallb] in Hok. apply andb_true_iff in Hok as [Hhead Hrest].
    apply andb_true_iff in Hhead as [Hname Htree].
    destruct (IHl Hrest) as [Hn Hs].
    split; [now constructor|].
    cbn [flat_map map]. apply Forall_app. split; [|exact Hs].
    change (join top [e.1]) with (posix.join top [e.1]).
    destruct (join_name_open_ended top e.1 Hop Hname) as [Hjoin Hop'].
    specialize (He _ Htree Hop').
    eapply Forall_impl; [exact He|].
    intros x ([suffix Hx] & Hox & Hdx). split; [|now split].
    exists (String posix.sep e.1 +:+ suffix).
    now rewrite Hx, Hjoin, append_assoc. }
  constructor; [|exact Hsub].
  split; [exists ""; now rewrite append_nil_r|]. now split.
Qed.

(** Cutting [len(ROOT)+1] characters off a path below [ROOT/include] leaves
    a relative, open-ended path. *)
Lemma relative_path_shape (ROOT suffix : string) :
  open_ended (posix.join ROOT ["include"] +:+ suffix) ->
  open_ended (Str.drop (String.length ROOT + 1)
                       (posix.join ROOT ["include"] +:+ suffix))
  /\ Str.startswith posix.sep
       (Str.drop (String.length ROOT + 1)
                 (posix.join ROOT ["include"] +:+ suffix)) = false.
Proof.
  unfold posix.join. cbn [fold_left]. unfold posix.join_step.
  change (Str.startswith posix.sep "include") with false. cbn iota.
  destruct (negb (Str.nonempty ROOT) || Str.endswith posix.sep ROOT);
    rewrite append_assoc; intros [_ He];
    rewrite drop_append_more;
    rewrite endswith_append in He by reflexivity.
  - change (Str.drop 1 ("include" +:+ suffix)) with ("nclude" +:+ suffix).
    change ("include" +:+ suffix) with ("i" +:+ "nclude" +:+ suffix) in He.
    rewrite endswith_append in He by reflexivity.
    repeat split; try reflexivity; exact He.
  - change (Str.drop 1 (String posix.sep "include" +:+ suffix))
      with ("include" +:+ suffix).
    change (String posix.sep "include" +:+ suffix)
      with ("/" +:+ "include" +:+ suffix) in He.
    rewrite endswith_append in He by reflexivity.
    repeat split; try reflexivity; exact He.
Qed.

(** The destination of a directory found by the walk. *)
Lemma destination_walked (rp d : string) :
  open_ended rp -> Str.startswith posix.sep rp = false ->
  valid_name d = true ->
  under_data_dir (destination (join rp [d])).
Proof.
  intros Hop Hrel Hd. change (join rp [d]) with (posix.join rp [d]).
  destruct (join_name_open_ended rp d Hop Hd) as [Hjoin _].
  assert (Hne : Str.nonempty (posix.join rp [d]) = true)
    by (rewrite Hjoin; apply nonempty_append_l, Hop).
  assert (Hrel' : Str.startswith posix.sep (posix.join rp [d]) = false)
    by (rewrite Hjoin, startswith_append; [exact Hrel | apply Hop]).
  right. exists (posix.join rp [d]).
  split; [exact Hne|]. split; [exact Hrel'|].
  unfold destination. rewrite Hne.
  change (join "tinycc-data" [posix.join rp [d]])
    with (posix.join "tinycc-data" [posix.join rp [d]]).
  split; [reflexivity|].
  now rewrite join_relative by (try split; auto).
Qed.

(** C10: every destination in the manifest is [tinycc-data] or
    [tinycc-data] joined with a relative path, whatever files and
    directories the compiler root holds. *)
Theorem data_files_destinations (w : World)
    (manifest : list (string * list string)) :
  names_valid w ->
  data_files w = Return manifest ->
  forall dest files, (dest, files) ∈ manifest -> under_data_dir dest.
Proof.
  intros Hvalid Hdata dest files Hin.
  destruct (find_tcc_path w) as [exe|e] eqn:Hfind;
    [|unfold data_files in Hdata; rewrite Hfind in Hdata; discriminate].
  rewrite (data_files_value w exe Hfind) in Hdata.
  injection Hdata as <-.
  change (dirname exe) with (posix.dirname exe) in Hin.
  set (ROOT := posix.dirname exe) in *.
  apply list_elem_of_In in Hin. cbn [In] in Hin.
  rewrite in_app_iff, in_map_iff in Hin. cbn [In] in Hin.
  assert (Hfixed : forall rel,
             Str.nonempty rel = true -> posix.isabs rel = false ->
             under_data_dir (posix.join "tinycc-data" [rel])).
  { intros rel Hne Habs. right. exists rel.
    split; [exact Hne|]. split; [exact Habs|]. split; [reflexivity|].
    now rewrite join_relative by (try split; auto). }
  destruct Hin as [Hin | [(path & Hin & Hpath) | [Hin | [Hin | [Hin | []]]]]];
    apply (f_equal fst) in Hin; rewrite _find_files_destination in Hin;
    cbn [fst] in Hin; subst dest.
  - exact (Hfixed "include" eq_refl eq_refl).
  - unfold walked_dirs in Hpath. apply in_flat_map in Hpath.
    destruct Hpath as ([[p dirs] nd] & Hwalk & Hd).
    apply in_map_iff in Hd as (d & <- & Hd).
    unfold walk in Hwalk.
    destruct (scandir w (join ROOT ["include"])) as [t|] eqn:Hscan; [|easy].
    pose proof (walk_tree_paths t _ (Hvalid _ _ Hscan) (include_open_ended ROOT))
      as Hpaths.
    rewrite Forall_forall in Hpaths.
    apply list_elem_of_In, Hpaths in Hwalk. cbn [fst snd] in Hwalk.
    destruct Hwalk as ([suffix ->] & Hop & Hnames).
    rewrite Forall_forall in Hnames.
    apply list_elem_of_In, Hnames in Hd.
    change (join ROOT ["include"]) with (posix.join ROOT ["include"]) in *.
    destruct (relative_path_shape ROOT suffix Hop) as [Hrp Hrel].
    now apply destination_walked.
  - exact (Hfixed "lib" eq_refl eq_refl).
  - exact (Hfixed "libtcc" eq_refl eq_refl).
  - left. reflexivity.
Qed.

Lemma names_valid_installed : names_valid Demo.installed.
Proof.
  intros top t. cbn [scandir Demo.installed Demo.world]. unfold Demo.listing.
  destruct (String.eqb top "/opt/tcc/include"); [|discriminate].
  intros [= <-]. reflexivity.
Defined.

(** The entry of [include/sys] in [Demo.installed]. *)
Lemma data_files_destinations_witness :
  under_data_dir "tinycc-data/include/sys".
Proof.
  apply (data_files_destinations Demo.installed Demo.manifest
           names_valid_installed eq_refl
           "tinycc-data/include/sys" ["/opt/tcc/include/sys/types.h"]).
  apply list_elem_of_In. right. left. reflexivity.
Defined.

(** * Further properties *)

Example data_files_cwd :
  data_files Cwd.installed
  = Return [ ("tinycc-data/include", ["include/stdio.h"]);
             ("tinycc-data/nclude/sys", []);
             ("tinycc-data/lib", []);
             ("tinycc-data/libtcc", []);
             ("tinycc-data", ["tcc.exe"]) ].
Proof. reflexivity. Qed.

(** ** More on locating the executable *)

Section find_tcc_path_more.
Context `{OsPath}.

(** X1: [find_tcc_path] raises only two exceptions: the [RuntimeError] of a
    set override whose directory lacks [tcc.exe], and, with no override and
    no [tcc.exe] in the package directory, the [TypeError] of the
    three-argument call of [dirname]. *)
Theorem find_tcc_path_exceptions (w : World) (e : exn) :
  find_tcc_path w = Raise e ->
  (exists root,
      environ w !! KEY = Some root
      /\ exists_ w (join root [EXE]) = false
      /\ e = override_error w root)
  \/ (environ w !! KEY = None
      /\ exists_ w (package_candidate w) = false
      /\ e = TypeError).
Proof.
  destruct (environ w !! KEY) as [root|] eqn:Henv.
  - rewrite (find_tcc_path_override w root Henv).
    destruct (exists_ w (join root [EXE])) eqn:Hex; [discriminate|].
    intros [= <-]. left. exists root. auto.
  - rewrite (find_tcc_path_no_override w Henv).
    destruct (exists_ w (package_candidate w)) eqn:Hex; [discriminate|].
    intros [= <-]. right. auto.
Qed.

(** X2: [sys.executable] has no influence on the result: the directory next
    to the running program is never examined. *)
Theorem find_tcc_path_ignores_sys_executable (w : World) (exe : string) :
  find_tcc_path (with_sys_executable exe w) = find_tcc_path w.
Proof.
  unfold find_tcc_path. cbn [with_sys_executable environ __file__ realpath
                              exists_ repr sys_executable].
  destruct (environ w !! KEY); [reflexivity|].
  destruct (exists_ w _); reflexivity.
Qed.

(** X3: a path that [find_tcc_path] returns exists, and it is the override
    directory joined with [tcc.exe] when the override is set, the package
    candidate otherwise. *)
Theorem find_tcc_path_returns_existing (w : World) (path : string) :
  find_tcc_path w = Return path ->
  exists_ w path = true
  /\ match environ w !! KEY with
     | Some root => path = join root [EXE]
     | None => path = package_candidate w
     end.
Proof.
  destruct (environ w !! KEY) as [root|] eqn:Henv.
  - rewrite (find_tcc_path_override w root Henv).
    destruct (exists_ w (join root [EXE])) eqn:Hex; [|discriminate].
    intros [= <-]. auto.
  - rewrite (find_tcc_path_no_override w Henv).
    destruct (exists_ w (package_candidate w)) eqn:Hex; [|discriminate].
    intros [= <-]. auto.
Qed.

End find_tcc_path_more.

(** The misconfigured override of [Demo.misconfigured]. *)
Lemma find_tcc_path_exceptions_witness :
  (exists root,
      environ Demo.misconfigured !! KEY = Some root
      /\ exists_ Demo.misconfigured (join root [EXE]) = false
      /\ RuntimeError "TCC_ROOT '/nowhere' does not contain tcc.exe"
         = override_error Demo.misconfigured root)
  \/ (environ Demo.misconfigured !! KEY = None
      /\ exists_ Demo.misconfigured (package_candidate Demo.misconfigured) = false
      /\ RuntimeError "TCC_ROOT '/nowhere' does not contain tcc.exe" = TypeError).
Proof.
  exact (find_tcc_path_exceptions Demo.misconfigured _ eq_refl).
Defined.

(** The package candidate of [Demo.packaged]. *)
Lemma find_tcc_path_returns_existing_witness :
  exists_ Demo.packaged Demo.package_exe = true
  /\ Demo.package_exe = package_candidate Demo.packaged.
Proof.
  exact (find_tcc_path_returns_existing Demo.packaged Demo.package_exe eq_refl).
Defined.

(** ** More on strings *)

Lemma rfind_not_mem (c : ascii) (s : string) :
  Str.mem c s = false -> Str.rfind c s = -1.
Proof.
  induction s as [|a s IH]; [reflexivity|].
  cbn [Str.mem Str.rfind]. intros Hm. apply orb_false_iff in Hm as [Ha Hs].
  rewrite (IH Hs), Ha. reflexivity.
Qed.

Lemma rfind_upper (c : ascii) (s : string) :
  Str.rfind c s < Z.of_nat (String.length s).
Proof.
  induction s as [|a s IH]; cbn [Str.rfind String.length]; [lia|].
  destruct (0 <=? Str.rfind c s); [lia|].
  destruct (Ascii.eqb a c); lia.
Qed.

(** The last occurrence in a concatenation is the last one of the second
    part when there is one, and the last one of the first part otherwise. *)
Lemma rfind_append (c : ascii) (a b : string) :
  Str.rfind c (a +:+ b)
  = if 0 <=? Str.rfind c b then Z.of_nat (String.length a) + Str.rfind c b
    else Str.rfind c a.
Proof.
  induction a as [|x a IH].
  - rewrite append_nil_l. cbn [String.length Str.rfind].
    destruct (0 <=? Str.rfind c b) eqn:E; [lia|].
    apply Z.leb_gt in E. pose proof (rfind_lower c b). lia.
  - rewrite append_cons. cbn [Str.rfind String.length]. rewrite IH.
    destruct (0 <=? Str.rfind c b) eqn:E; [|reflexivity].
    apply Z.leb_le in E.
    destruct (0 <=? Z.of_nat (String.length a) + Str.rfind c b) eqn:E';
      [lia | apply Z.leb_gt in E'; lia].
Qed.

Lemma take_append_length (a b : string) :
  Str.take (String.length a) (a +:+ b) = a.
Proof.
  induction a as [|x a IH]; [now destruct b|].
  rewrite append_cons. cbn [String.length Str.take]. now rewrite IH.
Qed.

Lemma drop_append_le (n : nat) (a b : string) :
  (n <= String.length a)%nat -> Str.drop n (a +:+ b) = Str.drop n a +:+ b.
Proof.
  revert a; induction n as [|n IH]; intros a Hn.
  - now destruct a.
  - destruct a as [|x a]; cbn [String.length] in Hn; [lia|].
    rewrite append_cons. cbn [Str.drop]. apply IH. lia.
Qed.

Lemma length_drop (n : nat) (s : string) :
  String.length (Str.drop n s) = (String.length s - n)%nat.
Proof.
  revert s; induction n as [|n IH]; intros [|a s];
    cbn [Str.drop String.length]; try lia. apply IH.
Qed.

Lemma drop_nil (n : nat) : Str.drop n "" = "".
Proof. now destruct n. Qed.

Lemma drop_add (n k : nat) (s : string) :
  Str.drop (n + k) s = Str.drop k (Str.drop n s).
Proof.
  revert s; induction n as [|n IH]; intros s; [reflexivity|].
  destruct s as [|a s]; cbn [Nat.add Str.drop]; [now rewrite drop_nil | apply IH].
Qed.

Lemma drop_take (k n : nat) (s : string) :
  Str.drop k (Str.take n s) = Str.take (n - k) (Str.drop k s).
Proof.
  revert n s; induction k as [|k IH]; intros n s.
  - cbn [Str.drop]. now rewrite Nat.sub_0_r.
  - destruct n as [|n], s as [|a s]; cbn [Str.take Str.drop Nat.sub];
      first [ reflexivity | now destruct (n - k)%nat | apply IH ].
Qed.

Lemma mem_drop (c : ascii) (n : nat) (s : string) :
  Str.mem c (Str.drop n s) = true -> Str.mem c s = true.
Proof.
  revert s; induction n as [|n IH]; intros [|a s]; cbn [Str.drop Str.mem];
    try easy.
  intros Hm. rewrite (IH _ Hm). apply orb_true_r.
Qed.

(** Cutting a string after the last occurrence of [c] keeps that
    occurrence the last one. *)
Lemma rfind_take (c : ascii) (n : nat) (s : string) :
  Str.rfind c s < Z.of_nat n -> Str.rfind c (Str.take n s) = Str.rfind c s.
Proof.
  revert n; induction s as [|a s IH]; intros [|n] Hlt;
    cbn [Str.take Str.rfind] in *; try reflexivity.
  - destruct (0 <=? Str.rfind c s) eqn:E; [apply Z.leb_le in E; lia|].
    destruct (Ascii.eqb a c); [lia | reflexivity].
  - rewrite IH; [reflexivity|].
    destruct (0 <=? Str.rfind c s) eqn:E; [lia | apply Z.leb_gt in E; lia].
Qed.

(** ** More on compiling *)

Section compile_more.
Context `{OsPath}.

Lemma splitext_unfold (p : string) :
  splitext p =
    if (sep_index p <? Str.rfind extsep p)
       && Str.has_other extsep
            (Str.slice (Z.to_nat (sep_index p + 1))
                       (Z.to_nat (Str.rfind extsep p)) p)
    then (Str.take (Z.to_nat (Str.rfind extsep p)) p,
          Str.drop (Z.to_nat (Str.rfind extsep p)) p)
    else (p, "").
Proof. reflexivity. Qed.

Lemma sep_index_bounds (p : string) :
  -1 <= sep_index p < Z.of_nat (String.length p).
Proof.
  unfold sep_index.
  pose proof (rfind_lower sep p). pose proof (rfind_upper sep p).
  destruct altsep as [a|]; [|lia].
  pose proof (rfind_lower a p). pose proof (rfind_upper a p). lia.
Qed.

Lemma sep_index_append (a b : string) :
  separators_outside b -> sep_index (a +:+ b) = sep_index a.
Proof.
  intros [Hsep Halt]. unfold sep_index.
  rewrite (rfind_append sep), (rfind_not_mem sep b Hsep). cbn [Z.leb Z.compare].
  destruct altsep as [c|]; [|reflexivity].
  now rewrite (rfind_append c), (rfind_not_mem c b (Halt c eq_refl)).
Qed.

Lemma sep_index_take (n : nat) (p : string) :
  sep_index p < Z.of_nat n -> sep_index (Str.take n p) = sep_index p.
Proof.
  unfold sep_index. destruct altsep as [a|]; intros Hlt.
  - rewrite !rfind_take by lia. reflexivity.
  - now apply rfind_take.
Qed.

(** A root whose last component is not made of dots only is what
    [splitext] gives back after [.dll] has been appended to it. *)
Lemma splitext_append_dll (root : string) :
  separators_outside ".dll" ->
  Str.has_other extsep (last_component root) = true ->
  splitext (root +:+ ".dll") = (root, ".dll").
Proof.
  intros Hout Hother. rewrite splitext_unfold, (sep_index_append _ _ Hout).
  rewrite (rfind_append extsep).
  change (Str.rfind extsep ".dll") with 0. cbn [Z.leb Z.compare].
  rewrite Z.add_0_r, Nat2Z.id.
  pose proof (sep_index_bounds root) as [Hlo Hhi].
  assert (Hlt : (sep_index root <? Z.of_nat (String.length root)) = true)
    by now apply Z.ltb_lt.
  rewrite Hlt. cbn [andb]. unfold Str.slice.
  rewrite drop_append_le by lia.
  replace (String.length root - Z.to_nat (sep_index root + 1))%nat
    with (String.length (Str.drop (Z.to_nat (sep_index root + 1)) root))
    by apply length_drop.
  rewrite take_append_length. fold (last_component root). rewrite Hother.
  now rewrite take_append_length, drop_append_length.
Qed.

(** The root that [splitext] returns keeps the last component's
    non-dot character. *)
Lemma splitext_root_other (p : string) :
  Str.has_other extsep (last_component p) = true ->
  Str.has_other extsep (last_component (fst (splitext p))) = true.
Proof.
  intros Hother. rewrite splitext_unfold.
  destruct (sep_index p <? Str.rfind extsep p) eqn:Hlt; cbn [andb];
    [|exact Hother].
  destruct (Str.has_other extsep (Str.slice _ _ p)) eqn:Hslice; cbn [fst];
    [|exact Hother].
  apply Z.ltb_lt in Hlt. pose proof (sep_index_bounds p) as [Hlo _].
  unfold last_component. rewrite sep_index_take by lia.
  rewrite drop_take. exact Hslice.
Qed.





(** X6: for an executable path without [%], [compile] runs one command,
    made of [TCC], the fixed flags, the source and the literal
    [-o $(target)s]: the command is the same for every target, and the
    target only decides which file must exist afterwards. *)
Theorem compile_runs_fixed_command (TCC : string) (system : Shell) (w : World)
    (source : string) (target : option string) :
  percent_free TCC = true ->
  compile TCC system w source target =
    let (status, w') :=
      system (TCC +:+ " -shared -rdynamic -Wall " +:+ source
              +:+ " -o $(target)s") w in
    if negb (status =? 0) || negb (exists_ w' (target_used source target))
    then Some (Raise (RuntimeError ("compile failed.  File is in "
                                    +:+ repr w' source)), w')
    else Some (Return (target_used source target), w').
Proof.
  intros Hfree.
  exact (compile_after_command TCC system w source target _
           (command_line_value TCC source _ Hfree)).
Qed.

(** X7: the executable path is part of the template, so [%%] in it reaches
    the shell as a single [%]: the command then names another path than
    the one [TCC] holds. *)
Theorem command_line_collapses_percent (a b source target : string) :
  percent_free a = true -> percent_free b = true ->
  command_line (a +:+ "%%" +:+ b) source target
  = Some (a +:+ "%" +:+ b +:+ " -shared -rdynamic -Wall " +:+ source
          +:+ " -o $(target)s").
Proof.
  intros Ha Hb. unfold command_line, Fmt.format, Fmt.run.
  rewrite !append_assoc. rewrite format_literal by exact Ha.
  change (Fmt.go ?m Fmt.Text ?out ("%%" +:+ ?rest))
    with (Fmt.go m Fmt.Text (Fmt.snoc out "%") rest).
  rewrite format_literal by exact Hb.
  rewrite (format_flags _ _ source) by apply lookup_insert_eq.
  unfold Fmt.snoc. now rewrite !append_nil_l, !append_assoc.
Qed.

(** X8: the only exception of [compile], once the command has run, is the
    [RuntimeError] whose message names the source (not the target); it is
    raised with the world as the command left it. *)
Theorem compile_raises_RuntimeError (TCC : string) (system : Shell) (w : World)
    (source : string) (target : option string) (command : string)
    (e : exn) (w' : World) :
  command_line TCC source (target_used source target) = Some command ->
  compile TCC system w source target = Some (Raise e, w') ->
  e = RuntimeError ("compile failed.  File is in " +:+ repr w' source)
  /\ exists status,
       system command w = (status, w')
       /\ (status <> 0 \/ exists_ w' (target_used source target) = false).
Proof.
  intros Hcmd. rewrite (compile_after_command _ _ _ _ _ _ Hcmd).
  destruct (system command w) as [status w1] eqn:Hrun.
  destruct (Z.eqb_spec status 0) as [Hz|Hnz]; cbn [negb orb].
  - destruct (exists_ w1 _) eqn:Hex; cbn [negb]; [discriminate|].
    intros [= <- <-]. split; [reflexivity|]. exists status. auto.
  - intros [= <- <-]. split; [reflexivity|]. exists status. auto.
Qed.

(** X9: the default target is the source itself exactly when the source
    already has the extension [.dll]. *)
Theorem default_target_is_source_iff (source : string) :
  target_used source None = source <-> snd (splitext source) = ".dll".
Proof.
  destruct (splitext_parts source) as [Hcut _]. revert Hcut.
  cbn [target_used]. destruct (splitext source) as [root ext].
  cbn [fst snd]. intros ->. split; intros Heq.
  - symmetry. now apply (inj (String.append root)) in Heq.
  - now rewrite Heq.
Qed.

(** X10: a source whose last component has no dot gets [.dll] appended. *)
Theorem default_target_without_dot (source : string) :
  Str.mem extsep (last_component source) = false ->
  splitext source = (source, "")
  /\ target_used source None = source +:+ ".dll".
Proof.
  intros Hnodot.
  assert (Hsplit : splitext source = (source, "")).
  { rewrite splitext_unfold.
    destruct (sep_index source <? Str.rfind extsep source) eqn:Hlt;
      [|reflexivity].
    apply Z.ltb_lt in Hlt. pose proof (sep_index_bounds source) as [Hlo _].
    destruct (rfind_last extsep source) as (rest & Hdrop & _); [lia|].
    assert (Hmem : Str.mem extsep (last_component source) = true).
    { unfold last_component.
      apply (mem_drop extsep
               (Z.to_nat (Str.rfind extsep source)
                - Z.to_nat (sep_index source + 1))).
      rewrite <- drop_add.
      replace (Z.to_nat (sep_index source + 1)
               + (Z.to_nat (Str.rfind extsep source)
                  - Z.to_nat (sep_index source + 1)))%nat
        with (Z.to_nat (Str.rfind extsep source)) by lia.
      rewrite Hdrop. cbn [Str.mem]. now rewrite Ascii.eqb_refl. }
    congruence. }
  split; [exact Hsplit|]. cbn [target_used]. now rewrite Hsplit.
Qed.

(** X11: deriving the default target is idempotent on every source whose
    last component has a character other than a dot: the derived target has
    the extension [.dll] and is its own default target. *)
Theorem default_target_idempotent (source : string) :
  separators_outside ".dll" ->
  Str.has_other extsep (last_component source) = true ->
  splitext (target_used source None) = (fst (splitext source), ".dll")
  /\ target_used (target_used source None) None = target_used source None.
Proof.
  intros Hout Hother. cbn [target_used].
  pose proof (splitext_append_dll _ Hout (splitext_root_other _ Hother)) as Hs.
  split; [exact Hs|]. now rewrite Hs.
Qed.

End compile_more.



(** [compile("hello.c", "out/hello.so")] with a command that fails. *)
Lemma compile_runs_fixed_command_witness :
  compile Demo.tcc Demo.sh_false Demo.built "hello.c" (Some "out/hello.so")
  = Some (Raise (RuntimeError "compile failed.  File is in 'hello.c'"),
          Demo.built).
Proof.
  exact (compile_runs_fixed_command Demo.tcc Demo.sh_false Demo.built
           "hello.c" (Some "out/hello.so") eq_refl).
Defined.

(** An executable below a directory named [100%]. *)
Lemma command_line_collapses_percent_witness :
  command_line "/opt/100%%/tcc.exe" "hello.c" "hello.dll"
  = Some "/opt/100%/tcc.exe -shared -rdynamic -Wall hello.c -o $(target)s".
Proof.
  exact (command_line_collapses_percent "/opt/100" "/tcc.exe" "hello.c"
           "hello.dll" eq_refl eq_refl).
Defined.

(** A command that exits with status 1 although the target exists. *)
Lemma compile_raises_RuntimeError_witness :
  RuntimeError "compile failed.  File is in 'hello.c'"
  = RuntimeError ("compile failed.  File is in "
                  +:+ repr Demo.built "hello.c")
  /\ exists status,
       Demo.sh_false
         (Demo.tcc +:+ " -shared -rdynamic -Wall hello.c -o $(target)s")
         Demo.built = (status, Demo.built)
       /\ (status <> 0
           \/ exists_ Demo.built (target_used "hello.c" None) = false).
Proof.
  exact (compile_raises_RuntimeError Demo.tcc Demo.sh_false Demo.built
           "hello.c" None _ _ Demo.built eq_refl eq_refl).
Defined.

(** [Makefile] has no dot. *)
Lemma default_target_without_dot_witness :
  splitext "src/Makefile" = ("src/Makefile", "")
  /\ target_used "src/Makefile" None = "src/Makefile.dll".
Proof.
  exact (default_target_without_dot "src/Makefile" eq_refl).
Defined.

Lemma separators_outside_posix : separators_outside ".dll".
Proof. split; [reflexivity | discriminate]. Defined.

(** [hello.c] and the hidden file [.profile]. *)
Lemma default_target_idempotent_witness :
  target_used (target_used "hello.c" None) None = "hello.dll"
  /\ target_used (target_used "etc/.profile" None) None = "etc/.profile.dll".
Proof.
  split.
  - exact (proj2 (default_target_idempotent "hello.c"
                    separators_outside_posix eq_refl)).
  - exact (proj2 (default_target_idempotent "etc/.profile"
                    separators_outside_posix eq_refl)).
Defined.

(** Where the last component is made of dots the derivation is not
    idempotent. *)
Example default_target_of_dots :
  target_used ".." None = "...dll"
  /\ target_used (target_used ".." None) None = "...dll.dll".
Proof. split; reflexivity. Qed.

(** ** More on the manifest *)

Lemma split_nonempty (c : ascii) (s : string) : Str.split c s <> [].
Proof.
  induction s as [|a s IH]; cbn [Str.split]; [discriminate|].
  destruct (Ascii.eqb a c); [discriminate|].
  destruct (Str.split c s); [contradiction | discriminate].
Qed.

(** Splitting at [c] what was joined with [c] gives the fields of both
    parts. *)
Lemma split_append (c : ascii) (a b : string) :
  Str.split c (a +:+ String c b) = Str.split c a ++ Str.split c b.
Proof.
  induction a as [|x a IH].
  - rewrite append_nil_l. cbn [Str.split]. now rewrite Ascii.eqb_refl.
  - rewrite append_cons. cbn [Str.split]. rewrite IH.
    destruct (Ascii.eqb x c); [reflexivity|].
    pose proof (split_nonempty c a) as Hne.
    destruct (Str.split c a); [contradiction | reflexivity].
Qed.

Lemma length_append (a b : string) :
  String.length (a +:+ b) = (String.length a + String.length b)%nat.
Proof.
  induction a as [|x a IH]; [reflexivity|].
  rewrite append_cons. cbn [String.length]. now rewrite IH.
Qed.

Lemma rstrip_open (c : ascii) (s : string) :
  Str.endswith c s = false -> Str.rstrip c s = s.
Proof.
  induction s as [|a s IH]; [reflexivity|].
  destruct s as [|b s].
  - cbn [Str.endswith Str.rstrip]. now intros ->.
  - rewrite endswith_cons by reflexivity. intros He.
    cbn [Str.rstrip] in *. now rewrite (IH He).
Qed.

Lemma rstrip_snoc (c : ascii) (s : string) :
  Str.rstrip c (s +:+ String c "") = Str.rstrip c s.
Proof.
  induction s as [|a s IH].
  - rewrite append_nil_l. cbn [Str.rstrip]. now rewrite Ascii.eqb_refl.
  - rewrite append_cons. cbn [Str.rstrip]. now rewrite IH.
Qed.

Lemma all_char_append (c : ascii) (a b : string) :
  Str.all_char c (a +:+ b) = Str.all_char c a && Str.all_char c b.
Proof.
  induction a as [|x a IH]; [reflexivity|].
  rewrite append_cons. cbn [Str.all_char]. now rewrite IH, andb_assoc.
Qed.

Lemma all_char_open (s : string) :
  open_ended s -> Str.all_char posix.sep s = false.
Proof.
  intros [Hn He]. induction s as [|a s IH]; [discriminate|].
  cbn [Str.all_char]. destruct s as [|b s].
  - cbn [Str.endswith] in He. now rewrite He.
  - rewrite endswith_cons in He by reflexivity.
    rewrite (IH eq_refl He). apply andb_false_r.
Qed.

(** The directory of [tcc.exe] joined to an open-ended directory is that
    directory. *)
Lemma dirname_join_exe (root : string) :
  open_ended root -> posix.dirname (posix.join root [EXE]) = root.
Proof.
  intros Hop. rewrite (join_relative root EXE Hop eq_refl).
  unfold posix.dirname. rewrite (rfind_append posix.sep).
  change (Str.rfind posix.sep (String posix.sep EXE)) with 0.
  cbn [Z.leb Z.compare].
  change (String posix.sep EXE) with (String posix.sep "" +:+ EXE).
  rewrite <- append_assoc.
  replace (Z.to_nat (Z.of_nat (String.length root) + 0 + 1))
    with (String.length (root +:+ String posix.sep ""))
    by (rewrite length_append; cbn [String.length]; lia).
  rewrite take_append_length.
  rewrite nonempty_append_l by apply Hop.
  rewrite all_char_append, (all_char_open root Hop). cbn [andb negb].
  rewrite rstrip_snoc. apply rstrip_open, Hop.
Qed.

(** What the walk of the include tree yields for a relative path that
    [data_files] searches. *)
Lemma walked_dirs_origin (w : World) (ROOT rel : string) :
  names_valid w -> rel ∈ walked_dirs w ROOT ->
  exists suffix dirs nondirs d,
    (posix.join ROOT ["include"] +:+ suffix, dirs, nondirs)
      ∈ walk w (join ROOT ["include"])
    /\ d ∈ dirs
    /\ open_ended (posix.join ROOT ["include"] +:+ suffix)
    /\ valid_name d = true
    /\ rel = posix.join
               (Str.drop (String.length ROOT + 1)
                         (posix.join ROOT ["include"] +:+ suffix)) [d].
Proof.
  intros Hvalid Hin. unfold walked_dirs in Hin.
  apply list_elem_of_In, in_flat_map in Hin.
  destruct Hin as ([[p dirs] nd] & Hwalk & Hd).
  apply in_map_iff in Hd as (d & <- & Hd).
  assert (Hpaths : Forall (fun e =>
                      (exists suffix, e.1.1 = posix.join ROOT ["include"] +:+ suffix)
                      /\ open_ended e.1.1
                      /\ Forall (fun d => valid_name d = true) e.1.2)
                     (walk w (join ROOT ["include"]))).
  { unfold walk.
    destruct (scandir w (join ROOT ["include"])) as [t|] eqn:Hscan;
      [|constructor].
    exact (walk_tree_paths t _ (Hvalid _ _ Hscan) (include_open_ended ROOT)). }
  rewrite Forall_forall in Hpaths.
  apply list_elem_of_In in Hwalk. pose proof (Hpaths _ Hwalk) as Hp.
  cbn [fst snd] in Hp. destruct Hp as ([suffix ->] & Hop & Hnames).
  rewrite Forall_forall in Hnames. apply list_elem_of_In in Hd.
  exists suffix, dirs, nd, d. repeat split; auto; apply Hop.
Qed.

(** X12: with [TCC_ROOT] naming an open-ended directory that holds
    [tcc.exe], the root under which [data_files] searches is that very
    directory. *)
Theorem data_files_under_override (w : World) (root : string) :
  environ w !! KEY = Some root ->
  open_ended root ->
  exists_ w (join root [EXE]) = true ->
  data_files w =
    Return (_find_files w root "include" "*.h"
            :: map (fun path => _find_files w root path "*.h")
                   (walked_dirs w root)
            ++ [ _find_files w root "lib" "*";
                 _find_files w root "libtcc" "*";
                 _find_files w root "" "*.exe,*.dll" ]).
Proof.
  intros Henv Hop Hex.
  assert (Hfind : find_tcc_path w = Return (join root [EXE]))
    by (rewrite (find_tcc_path_override w root Henv); now rewrite Hex).
  rewrite (data_files_value w _ Hfind).
  change (dirname (join root [EXE])) with (posix.dirname (posix.join root [EXE])).
  now rewrite (dirname_join_exe root Hop).
Qed.

(** X13: below an open-ended root the manifest mirrors the include tree:
    the relative path searched for a sub-directory, joined to the root, is
    the path of that sub-directory, so its headers are globbed in the
    directory itself, and its destination is [tinycc-data/] followed by the
    same relative path. *)
Theorem walked_dirs_mirror (w : World) (ROOT rel : string) :
  open_ended ROOT -> names_valid w -> rel ∈ walked_dirs w ROOT ->
  exists p dirs nondirs d,
    (p, dirs, nondirs) ∈ walk w (join ROOT ["include"])
    /\ d ∈ dirs
    /\ join ROOT [rel] = join p [d]
    /\ join ROOT [rel; "*.h"] = join p [d; "*.h"]
    /\ destination rel = "tinycc-data/" +:+ rel.
Proof.
  intros Hroot Hvalid Hin.
  destruct (walked_dirs_origin w ROOT rel Hvalid Hin)
    as (suffix & dirs & nd & d & Hwalk & Hd & Hop & Hname & Hrel).
  destruct (relative_path_shape ROOT suffix Hop) as [Hrp Hstart].
  destruct (join_name_open_ended _ d Hrp Hname) as [Hjoin _].
  rewrite Hjoin in Hrel.
  rewrite (join_relative ROOT "include" Hroot eq_refl) in *.
  rewrite append_assoc, drop_append_more in Hrel.
  change (Str.drop 1 (String posix.sep "include" +:+ suffix))
    with ("include" +:+ suffix) in Hrel.
  assert (Hne : Str.nonempty rel = true) by now subst rel.
  assert (Hrelative : Str.startswith posix.sep rel = false) by now subst rel.
  assert (Hpath : posix.join ROOT [rel]
                  = posix.join ((ROOT +:+ String posix.sep "include") +:+ suffix) [d]).
  { destruct (join_name_open_ended _ d Hop Hname) as [-> _].
    rewrite (join_relative ROOT rel Hroot Hrelative). subst rel.
    now rewrite !append_assoc. }
  exists ((ROOT +:+ String posix.sep "include") +:+ suffix), dirs, nd, d.
  split; [exact Hwalk|]. split; [exact Hd|]. split; [exact Hpath|]. split.
  - change (posix.join (posix.join ROOT [rel]) ["*.h"]
            = posix.join (posix.join ((ROOT +:+ String posix.sep "include")
                                      +:+ suffix) [d]) ["*.h"]).
    now rewrite Hpath.
  - unfold destination. rewrite Hne.
    change (join "tinycc-data" [rel]) with (posix.join "tinycc-data" [rel]).
    now rewrite join_relative by (try split; auto).
Qed.

(** X14: below a root that is empty or ends in a separator, cutting
    [len(ROOT)+1] characters takes the first letter of [include] along: the
    relative path searched for a sub-directory starts with [nclude], and
    joined to the root it is not the path of that sub-directory, which has
    an [i] more. *)
Theorem walked_dirs_cut_short (w : World) (ROOT rel : string) :
  Str.nonempty ROOT = false \/ Str.endswith posix.sep ROOT = true ->
  names_valid w -> rel ∈ walked_dirs w ROOT ->
  exists p dirs nondirs d,
    (p, dirs, nondirs) ∈ walk w (join ROOT ["include"])
    /\ d ∈ dirs
    /\ join p [d] = ROOT +:+ "i" +:+ rel
    /\ join ROOT [rel] = ROOT +:+ rel
    /\ join ROOT [rel] <> join p [d]
    /\ exists tail, rel = "nclude" +:+ tail.
Proof.
  intros Hroot Hvalid Hin.
  destruct (walked_dirs_origin w ROOT rel Hvalid Hin)
    as (suffix & dirs & nd & d & Hwalk & Hd & Hop & Hname & Hrel).
  destruct (relative_path_shape ROOT suffix Hop) as [Hrp Hstart].
  destruct (join_name_open_ended _ d Hrp Hname) as [Hjoin _].
  rewrite Hjoin in Hrel.
  assert (Hclosed : negb (Str.nonempty ROOT) || Str.endswith posix.sep ROOT = true)
    by (destruct Hroot as [-> | ->]; [reflexivity | apply orb_true_r]).
  assert (Htop : posix.join ROOT ["include"] = ROOT +:+ "include").
  { unfold posix.join. cbn [fold_left]. unfold posix.join_step.
    change (Str.startswith posix.sep "include") with false. cbn iota.
    now rewrite Hclosed. }
  rewrite Htop in *.
  rewrite append_assoc, drop_append_more in Hrel.
  change (Str.drop 1 ("include" +:+ suffix)) with ("nclude" +:+ suffix) in Hrel.
  assert (Hrelative : Str.startswith posix.sep rel = false) by now subst rel.
  assert (Hdir : posix.join ((ROOT +:+ "include") +:+ suffix) [d]
                 = ROOT +:+ "i" +:+ rel).
  { destruct (join_name_open_ended _ d Hop Hname) as [-> _]. subst rel.
    now rewrite !append_assoc. }
  assert (Hsearch : posix.join ROOT [rel] = ROOT +:+ rel).
  { unfold posix.join. cbn [fold_left]. unfold posix.join_step.
    now rewrite Hrelative, Hclosed. }
  exists ((ROOT +:+ "include") +:+ suffix), dirs, nd, d.
  split; [exact Hwalk|]. split; [exact Hd|]. split; [exact Hdir|].
  split; [exact Hsearch|]. split.
  - change (posix.join ROOT [rel]
            <> posix.join ((ROOT +:+ "include") +:+ suffix) [d]).
    rewrite Hdir, Hsearch. intros Heq.
    apply (inj (String.append ROOT)), (f_equal String.length) in Heq.
    rewrite length_append in Heq. cbn [String.length] in Heq. lia.
  - exists (suffix +:+ String posix.sep d). subst rel. apply append_assoc.
Qed.

(** X15: searching for two comma-joined lists of patterns finds the files
    of the first list followed by the files of the second, for the same
    destination. *)
Theorem _find_files_patterns_append `{OsPath} (w : World)
    (ROOT path patterns1 patterns2 : string) :
  _find_files w ROOT path (patterns1 +:+ "," +:+ patterns2)
  = (destination path,
     snd (_find_files w ROOT path patterns1)
     ++ snd (_find_files w ROOT path patterns2)).
Proof.
  rewrite (surjective_pairing (_find_files w ROOT path _)).
  rewrite _find_files_destination, !_find_files_files. f_equal.
  change ("," +:+ patterns2) with (String "," patterns2).
  rewrite split_append. apply flat_map_app.
Qed.

Lemma names_valid_cwd : names_valid Cwd.installed.
Proof.
  intros top t. cbn [scandir Cwd.installed]. unfold Cwd.listing.
  destruct (String.eqb top "include"); [|discriminate].
  intros [= <-]. reflexivity.
Defined.

(** [Demo.installed]: [TCC_ROOT=/opt/tcc]. *)
Lemma data_files_under_override_witness :
  data_files Demo.installed =
    Return (_find_files Demo.installed "/opt/tcc" "include" "*.h"
            :: map (fun path => _find_files Demo.installed "/opt/tcc" path "*.h")
                   (walked_dirs Demo.installed "/opt/tcc")
            ++ [ _find_files Demo.installed "/opt/tcc" "lib" "*";
                 _find_files Demo.installed "/opt/tcc" "libtcc" "*";
                 _find_files Demo.installed "/opt/tcc" "" "*.exe,*.dll" ]).
Proof.
  exact (data_files_under_override Demo.installed "/opt/tcc" eq_refl
           (conj eq_refl eq_refl) eq_refl).
Defined.

(** [include/sys] below [/opt/tcc]. *)
Lemma walked_dirs_mirror_witness :
  exists p dirs nondirs d,
    (p, dirs, nondirs) ∈ walk Demo.installed (join "/opt/tcc" ["include"])
    /\ d ∈ dirs
    /\ join "/opt/tcc" ["include/sys"] = join p [d]
    /\ join "/opt/tcc" ["include/sys"; "*.h"] = join p [d; "*.h"]
    /\ destination "include/sys" = "tinycc-data/" +:+ "include/sys".
Proof.
  apply (walked_dirs_mirror Demo.installed "/opt/tcc" "include/sys"
           (conj eq_refl eq_refl) names_valid_installed).
  apply list_elem_of_In. left. reflexivity.
Defined.

(** [include/sys] in the working directory, with [TCC_ROOT] empty. *)
Lemma walked_dirs_cut_short_witness :
  exists p dirs nondirs d,
    (p, dirs, nondirs) ∈ walk Cwd.installed (join "" ["include"])
    /\ d ∈ dirs
    /\ join p [d] = "" +:+ "i" +:+ "nclude/sys"
    /\ join "" ["nclude/sys"] = "" +:+ "nclude/sys"
    /\ join "" ["nclude/sys"] <> join p [d]
    /\ exists tail, "nclude/sys" = "nclude" +:+ tail.
Proof.
  apply (walked_dirs_cut_short Cwd.installed "" "nclude/sys"
           (or_introl eq_refl) names_valid_cwd).
  apply list_elem_of_In. left. reflexivity.
Defined.

(** Every directory that a walk lists is passed on once. *)
Lemma walk_tree_count `{OsPath} {A : Type} (g : string -> string -> A)
    (t : dtree) :
  forall top,
    length (flat_map (fun '(path, dirs, _) => map (g path) dirs)
                     (walk_tree top t))
    = count_dirs t.
Proof.
  induction t as [dirs nondirs IH|] using dtree_nested_ind; intros top;
    [|reflexivity].
  cbn [walk_tree flat_map count_dirs].
  rewrite length_app, !length_map.
  induction IH as [|e l He _ IHl]; [reflexivity|].
  cbn [flat_map fold_right length]. rewrite flat_map_app, length_app.
  rewrite He. lia.
Qed.

(** X16: the manifest has one entry for [include], [lib], [libtcc] and the
    root, and one for every directory below [include] that the walk lists,
    at any depth. *)
Theorem data_files_length `{OsPath} (w : World) (exe : string)
    (manifest : list (string * list string)) :
  find_tcc_path w = Return exe ->
  data_files w = Return manifest ->
  length manifest
  = (4 + match scandir w (join (dirname exe) ["include"]) with
         | Some t => count_dirs t
         | None => 0
         end)%nat.
Proof.
  intros Hfind Hdata. rewrite (data_files_value w exe Hfind) in Hdata.
  injection Hdata as <-. cbn [length].
  rewrite length_app, length_map. cbn [length].
  unfold walked_dirs, walk.
  destruct (scandir w (join (dirname exe) ["include"])) as [t|];
    [|reflexivity].
  rewrite (walk_tree_count
             (fun path d =>
                join (Str.drop (String.length (dirname exe) + 1) path) [d])).
  lia.
Qed.

(** Six entries in [Demo.installed], whose include tree has two
    sub-directories. *)
Lemma data_files_length_witness : length Demo.manifest = 6%nat.
Proof.
  exact (data_files_length Demo.installed "/opt/tcc/tcc.exe" Demo.manifest
           eq_refl eq_refl).
Defined.
